(** * ulit.parsers.akomantoso : the Akoma Ntoso parser

    A shallow embedding of [src/ulit/parsers/akomantoso.py] and the
    properties of its extraction operations.

    The parser works on an lxml element tree that it mutates in place
    ([remove_node]), through references to elements ([getparent],
    [getchildren], [remove]).  The embedding therefore has three layers:

    - [py]    : the Python string operations the parser calls;
    - [etree] : the lxml element store: the parsed tree, references to its
                elements, and the mutable part (unlinked elements, current
                text and tail);
    - [AkomaNtosoParser] : the methods of the class, written in a state and
                exception monad over the parser object.

    After the three modules come the vocabulary of the properties, the
    example documents, the lemmas, the statements taken from the
    specification, each with the identifier it has there, and last the
    further properties read off the code ([X1] to [X22]) with their
    lemmas. *)

From Stdlib Require Import List String Ascii NArith Bool Arith Lia Sorted.
Import ListNotations.

Set Warnings "-register-all".

(* ================================================================== *)
(** * Python strings *)
(* ================================================================== *)

Module py.

(** A Python [str] is a sequence of Unicode code points. *)
Definition char := N.
Definition str := list char.

(** An ASCII literal as a [str]. *)
Definition lit (s : string) : str :=
  map N_of_ascii (list_ascii_of_string s).

(** [str.isspace] on one code point, which is also what [str.strip] and
    the regular expression class [\s] test on [str] values
    (CPython's [_PyUnicode_IsWhitespace]). *)
Definition isspace (c : char) : bool :=
  (((9 <=? c) && (c <=? 13)) || ((28 <=? c) && (c <=? 32))
   || (c =? 133) || (c =? 160) || (c =? 5760)
   || ((8192 <=? c) && (c <=? 8202))
   || (c =? 8232) || (c =? 8233) || (c =? 8239) || (c =? 8287)
   || (c =? 12288))%N.

Fixpoint lstrip (s : str) : str :=
  match s with
  | [] => []
  | c :: rest => if isspace c then lstrip rest else s
  end.

Definition rstrip (s : str) : str := rev (lstrip (rev s)).

(** [s.strip()] *)
Definition strip (s : str) : str := rstrip (lstrip s).

(** [sep.join(parts)] *)
Fixpoint join (sep : str) (parts : list str) : str :=
  match parts with
  | [] => []
  | [x] => x
  | x :: rest => x ++ sep ++ join sep rest
  end.

(** Truth value of an [Optional[str]]: [None] and [''] are false. *)
Definition truthy (o : option str) : bool :=
  match o with
  | Some (_ :: _) => true
  | _ => false
  end.

(** [o or ''] *)
Definition or_empty (o : option str) : str :=
  match o with
  | Some s => s
  | None => []
  end.

(** [str(o)] for an [Optional[str]]: [str(None)] is ['None']. *)
Definition str_of (o : option str) : str :=
  match o with
  | Some s => s
  | None => lit "None"
  end.

(** [re.sub(r'\s+', ' ', s)]: every maximal run of whitespace is replaced
    by one U+0020.  [in_run] says that the previous character was part of
    the run being replaced. *)
Fixpoint sub_ws (in_run : bool) (s : str) : str :=
  match s with
  | [] => []
  | c :: rest =>
      if isspace c
      then (if in_run then sub_ws true rest else 32%N :: sub_ws true rest)
      else c :: sub_ws false rest
  end.

Definition re_sub_ws (s : str) : str := sub_ws false s.

End py.

(* ================================================================== *)
(** * The lxml element store *)
(* ================================================================== *)

Module etree.
Import py.

(** The tree [etree.parse] builds: an element has a tag (in Clark
    notation, [{uri}local]), attributes, the text before its first child,
    its children, and the tail text that follows its end tag.  Comments
    and processing instructions are left out. *)
Inductive xml : Type :=
| Element (tag : string) (attrib : list (string * str))
          (text : option str) (children : list xml) (tail : option str).

Definition xtag (x : xml) := let 'Element t _ _ _ _ := x in t.
Definition xattrib (x : xml) := let 'Element _ a _ _ _ := x in a.
Definition xtext (x : xml) := let 'Element _ _ t _ _ := x in t.
Definition xchildren (x : xml) := let 'Element _ _ _ c _ := x in c.
Definition xtail (x : xml) := let 'Element _ _ _ _ t := x in t.

(** A reference to an element.  The parser never creates, copies or
    re-attaches an element, so an element is identified by where it stood
    in the parsed tree: the list of child indices from the element up to
    the root ([i :: p] is child number [i] of [p], [[]] is the root). *)
Definition ref := list nat.

Definition ref_eqb (a b : ref) : bool :=
  if list_eq_dec Nat.eq_dec a b then true else false.

(** The store: the parsed tree and what changed since parsing.
    - [unlinked]: the elements that [remove] took out of their parent;
    - [texts], [tails]: the [.text] and [.tail] assigned since parsing,
      most recent first. *)
Record Doc : Type := mkDoc {
  parsed : xml;
  unlinked : list ref;
  texts : list (ref * option str);
  tails : list (ref * option str)
}.

Definition parse (x : xml) : Doc := mkDoc x [] [] [].

Fixpoint node_at (x : xml) (r : ref) : option xml :=
  match r with
  | [] => Some x
  | i :: p =>
      match node_at x p with
      | Some y => nth_error (xchildren y) i
      | None => None
      end
  end.

Fixpoint assoc {A} (r : ref) (l : list (ref * A)) : option A :=
  match l with
  | [] => None
  | (k, v) :: rest => if ref_eqb r k then Some v else assoc r rest
  end.

Definition is_unlinked (d : Doc) (r : ref) : bool :=
  existsb (ref_eqb r) (unlinked d).

(** [e.tag] *)
Definition tag (d : Doc) (e : ref) : string :=
  match node_at (parsed d) e with
  | Some x => xtag x
  | None => EmptyString
  end.

(** [e.get(key)] *)
Fixpoint lookup (key : string) (a : list (string * str)) : option str :=
  match a with
  | [] => None
  | (k, v) :: rest => if String.eqb key k then Some v else lookup key rest
  end.

Definition get (d : Doc) (e : ref) (key : string) : option str :=
  match node_at (parsed d) e with
  | Some x => lookup key (xattrib x)
  | None => None
  end.

(** [e.text] *)
Definition text (d : Doc) (e : ref) : option str :=
  match assoc e (texts d) with
  | Some v => v
  | None =>
      match node_at (parsed d) e with
      | Some x => xtext x
      | None => None
      end
  end.

(** [e.tail] *)
Definition tail (d : Doc) (e : ref) : option str :=
  match assoc e (tails d) with
  | Some v => v
  | None =>
      match node_at (parsed d) e with
      | Some x => xtail x
      | None => None
      end
  end.

(** [e.text = v] and [e.tail = v] *)
Definition set_text (d : Doc) (e : ref) (v : option str) : Doc :=
  mkDoc (parsed d) (unlinked d) ((e, v) :: texts d) (tails d).

Definition set_tail (d : Doc) (e : ref) (v : option str) : Doc :=
  mkDoc (parsed d) (unlinked d) (texts d) ((e, v) :: tails d).

(** [e.getparent()]: [None] for the root and for an unlinked element. *)
Definition getparent (d : Doc) (e : ref) : option ref :=
  match e with
  | [] => None
  | _ :: p => if is_unlinked d e then None else Some p
  end.

(** Iteration over the children of [e] that are still linked, in
    document order: [cs] are the parsed children of [e] from index [i]
    on, and [f] gives what each linked child contributes. *)
Fixpoint over_children {A} (d : Doc) (e : ref) (f : ref -> xml -> list A)
  (i : nat) (cs : list xml) : list A :=
  match cs with
  | [] => []
  | c :: cs' =>
      (if is_unlinked d (i :: e) then [] else f (i :: e) c)
      ++ over_children d e f (S i) cs'
  end.

(** [e.getchildren()] *)
Definition getchildren (d : Doc) (e : ref) : list ref :=
  match node_at (parsed d) e with
  | Some x => over_children d e (fun c _ => [c]) 0 (xchildren x)
  | None => []
  end.

Definition unlink (d : Doc) (e : ref) : Doc :=
  mkDoc (parsed d) (e :: unlinked d) (texts d) (tails d).

(** [parent.remove(e)]: unlinks [e], which keeps its subtree and its
    tail.  lxml raises [ValueError] when [e] is not a child of
    [parent]: [None] here. *)
Definition remove (d : Doc) (parent e : ref) : option Doc :=
  match getparent d e with
  | Some p =>
      if ref_eqb p parent
      then Some (unlink d e)
      else None
  | None => None
  end.

(** [e.iterchildren(tag)] *)
Definition iterchildren (d : Doc) (t : string) (e : ref) : list ref :=
  filter (fun c => String.eqb (tag d c) t) (getchildren d e).

(** The linked elements beneath [e] in document order; [x] is the parsed
    element at [e]. *)
Fixpoint descendants_at (d : Doc) (e : ref) (x : xml) {struct x}
  : list ref :=
  over_children d e (fun c y => c :: descendants_at d c y) 0 (xchildren x).

Definition descendants (d : Doc) (e : ref) : list ref :=
  match node_at (parsed d) e with
  | Some x => descendants_at d e x
  | None => []
  end.

(** [e.iterdescendants(tag)] *)
Definition iterdescendants (d : Doc) (t : string) (e : ref) : list ref :=
  filter (fun c => String.eqb (tag d c) t) (descendants d e).

Definition opt_list {A} (o : option A) : list A :=
  match o with
  | Some a => [a]
  | None => []
  end.

(** [e.itertext()]: the text of [e], then for each linked child its own
    [itertext] followed by its tail; [None] is skipped. *)
Fixpoint itertext_at (d : Doc) (e : ref) (x : xml) {struct x}
  : list str :=
  opt_list (text d e)
  ++ over_children d e
       (fun c y => itertext_at d c y ++ opt_list (tail d c))
       0 (xchildren x).

Definition itertext (d : Doc) (e : ref) : list str :=
  match node_at (parsed d) e with
  | Some x => itertext_at d e x
  | None => []
  end.

(** The ElementPath expressions the parser uses are sequences of child
    steps [tag] and descendant steps [//tag], with the prefixes resolved
    through the namespace mapping; a leading [.] selects the context
    element and adds no step:
    ['akn:p'] is [[Child p]], ['.//akn:p'] is [[Descendant p]],
    ['.//akn:meta/akn:identification'] is
    [[Descendant meta; Child identification]]. *)
Inductive step : Type :=
| Child (t : string)
| Descendant (t : string).

Definition path := list step.

Definition select (d : Doc) (s : step) (result : list ref) : list ref :=
  match s with
  | Child t => flat_map (iterchildren d t) result
  | Descendant t => flat_map (iterdescendants d t) result
  end.

(** [e.findall(path)]: each step is applied to the result of the one
    before it, starting from [[e]]. *)
Definition findall (d : Doc) (e : ref) (p : path) : list ref :=
  fold_left (fun result s => select d s result) p [e].

(** [e.find(path)]: the first match or [None]. *)
Definition find (d : Doc) (e : ref) (p : path) : option ref :=
  hd_error (findall d e p).

(** The element now at [e] with everything linked beneath it, as a tree
    again (what serialising [e] would show). *)
Fixpoint snapshot_at (d : Doc) (e : ref) (x : xml) {struct x} : xml :=
  Element (xtag x) (xattrib x) (text d e)
    (over_children d e (fun c y => [snapshot_at d c y]) 0 (xchildren x))
    (tail d e).

Definition snapshot (d : Doc) (e : ref) : option xml :=
  match node_at (parsed d) e with
  | Some x => Some (snapshot_at d e x)
  | None => None
  end.

End etree.

(* ================================================================== *)
(** * The parser class *)
(* ================================================================== *)

Module AkomaNtosoParser.
Import py etree.

(** [self.namespaces], set by [__init__] and never changed. *)
Definition namespaces : list (string * string) :=
  [ ("akn", "http://docs.oasis-open.org/legaldocml/ns/akn/3.0");
    ("fmx",
     "http://formex.publications.europa.eu/schema/formex-05.56-20160701.xd")
  ]%string.

Fixpoint uri_of (prefix : string) (ns : list (string * string)) : string :=
  match ns with
  | [] => EmptyString
  | (k, v) :: rest => if String.eqb prefix k then v else uri_of prefix rest
  end.

(** [prefix:local] resolved through [namespaces]. *)
Definition qname (prefix local : string) : string :=
  ("{" ++ uri_of prefix namespaces ++ "}" ++ local)%string.

Definition akn (local : string) : string := qname "akn" local.
Definition fmx (local : string) : string := qname "fmx" local.

(** ** The records the methods return (Python dicts with fixed keys) *)

Record frbr_work : Type := mkWork {
  work_FRBRthis : option str;
  work_FRBRuri : option str;
  work_FRBRalias : option str;
  work_FRBRdate : option str;
  work_FRBRauthor : option str;
  work_FRBRcountry : option str;
  work_FRBRnumber : option str
}.

Record frbr_expression : Type := mkExpression {
  expr_FRBRthis : option str;
  expr_FRBRuri : option str;
  expr_FRBRdate : option str;
  expr_FRBRauthor : option str;
  expr_FRBRlanguage : option str
}.

Record frbr_manifestation : Type := mkManifestation {
  manif_FRBRthis : option str;
  manif_FRBRuri : option str;
  manif_FRBRdate : option str;
  manif_FRBRauthor : option str
}.

Record frbr_data : Type := mkFrbr {
  work : option frbr_work;
  expression : option frbr_expression;
  manifestation : option frbr_manifestation
}.

Record references : Type := mkReferences {
  ref_eId : option str;
  ref_href : option str;
  ref_showAs : option str
}.

Record proprietary : Type := mkProprietary {
  file : option str;
  coll : option str;
  year : option str;
  lg_doc : option str;
  no_seq : option str
}.

Record citation : Type := mkCitation { citation_text : str }.

Record recital : Type := mkRecital {
  recital_text : str;
  recital_eId : option str
}.

Record preamble : Type := mkPreamble {
  formula : option str;
  citations : option (list citation);
  recitals : option (list recital)
}.

Record chapter : Type := mkChapter {
  chapter_eId : option str;
  chapter_num : option str;
  chapter_heading : option str
}.

(** An entry of [get_text_by_eId]: [{'eId': .., 'text': ..}]. *)
Record element : Type := mkElement {
  element_eId : str;
  element_text : str
}.

Record article : Type := mkArticle {
  article_eId : option str;
  article_num : option str;
  article_title : option str;
  article_text : list element
}.

(** ** The parser object and the monad of its methods *)

(** The exceptions the methods can raise: [AttributeError] when an
    attribute is read or a method is called on [None], or when an
    attribute of [self] is read before it was assigned; [ValueError] from
    [remove]; and from [get_root], [OSError] (Python's [FileNotFoundError]
    and its other subclasses) when [open] fails and lxml's
    [XMLSyntaxError] when the file is not well-formed. *)
Inductive exn : Type :=
  AttributeError | ValueError | OSError | XMLSyntaxError.

Inductive outcome (A : Type) : Type :=
| Return (a : A)
| Raise (e : exn).
Arguments Return {A} a.
Arguments Raise {A} e.

(** The parser object together with the element store its fields point
    into.  A field of [self] that was never assigned is [None] here; a
    field assigned Python's [None] is [Some None].  The class assigns
    these fields in its methods only: [__init__] sets [namespaces] and
    does not call the initialiser of the base class [Parser]. *)
Record Parser : Type := mkParser {
  doc : Doc;
  root : option ref;
  act : option (option ref);
  body : option (option ref);
  chapters : option (list chapter);
  articles : option (list article)
}.

(** A method: it may change the parser and the store, and returns a value
    or raises.  What it changed before raising stays changed. *)
Definition M (A : Type) : Type := Parser -> Parser * outcome A.

Definition ret {A} (a : A) : M A := fun s => (s, Return a).

Definition raise {A} (e : exn) : M A := fun s => (s, Raise e).

Definition bind {A B} (m : M A) (k : A -> M B) : M B :=
  fun s =>
    match m s with
    | (s', Return a) => k a s'
    | (s', Raise e) => (s', Raise e)
    end.

Declare Scope py_scope.
Delimit Scope py_scope with py.
Notation "x <- m ;; k" := (bind m (fun x => k))
  (at level 61, m at next level, right associativity) : py_scope.
Notation "m ;; k" := (bind m (fun _ => k))
  (at level 61, right associativity) : py_scope.
Local Open Scope py_scope.

(** The state a method leaves and the value it returns. *)
Definition exec {A} (m : M A) (s : Parser) : Parser := fst (m s).
Definition eval {A} (m : M A) (s : Parser) : outcome A := snd (m s).

(** [for a in l: acc = f(acc, a)], the shape of a loop that appends to a
    local list. *)
Fixpoint foldM {A B} (f : B -> A -> M B) (l : list A) (acc : B) : M B :=
  match l with
  | [] => ret acc
  | a :: rest => acc' <- f acc a ;; foldM f rest acc'
  end.

(** [for a in l: body(a)] *)
Definition for_ {A} (l : list A) (body : A -> M unit) : M unit :=
  foldM (fun _ a => body a) l tt.

(** [[f(a) for a in l]] *)
Fixpoint mapM {A B} (f : A -> M B) (l : list A) : M (list B) :=
  match l with
  | [] => ret []
  | a :: rest => b <- f a ;; bs <- mapM f rest ;; ret (b :: bs)
  end.

(** Reading and updating the store. *)
Definition read {A} (f : Doc -> A) : M A :=
  fun s => (s, Return (f (doc s))).

Definition set_doc (s : Parser) (d : Doc) : Parser :=
  mkParser d (root s) (act s) (body s) (chapters s) (articles s).

Definition write (f : Doc -> Doc) : M unit :=
  fun s => (set_doc s (f (doc s)), Return tt).

(** The receiver of a method call or attribute access: [None] raises
    [AttributeError]. *)
Definition deref (o : option ref) : M ref :=
  match o with
  | Some e => ret e
  | None => raise AttributeError
  end.

(** The element interface, on the current store. *)
Definition find_ (e : ref) (p : path) : M (option ref) :=
  read (fun d => find d e p).
Definition findall_ (e : ref) (p : path) : M (list ref) :=
  read (fun d => findall d e p).
Definition get_ (e : ref) (key : string) : M (option str) :=
  read (fun d => get d e key).
Definition text_ (e : ref) : M (option str) := read (fun d => text d e).
Definition tail_ (e : ref) : M (option str) := read (fun d => tail d e).
Definition itertext_ (e : ref) : M (list str) :=
  read (fun d => itertext d e).
Definition getparent_ (e : ref) : M (option ref) :=
  read (fun d => getparent d e).
Definition getchildren_ (e : ref) : M (list ref) :=
  read (fun d => getchildren d e).
Definition set_text_ (e : ref) (v : str) : M unit :=
  write (fun d => set_text d e (Some v)).
Definition set_tail_ (e : ref) (v : str) : M unit :=
  write (fun d => set_tail d e (Some v)).
Definition remove_ (parent e : ref) : M unit :=
  fun s =>
    match remove (doc s) parent e with
    | Some d => (set_doc s d, Return tt)
    | None => (s, Raise ValueError)
    end.

(** [self.root] and [self.body]: reading a field that was never assigned
    raises [AttributeError]. *)
Definition self_root : M ref :=
  fun s =>
    match root s with
    | Some r => (s, Return r)
    | None => (s, Raise AttributeError)
    end.

Definition self_body : M (option ref) :=
  fun s =>
    match body s with
    | Some b => (s, Return b)
    | None => (s, Raise AttributeError)
    end.

(** [self.act = v], [self.body = v], [self.chapters = v] and
    [self.articles = v] *)
Definition with_act (s : Parser) (v : option ref) : Parser :=
  mkParser (doc s) (root s) (Some v) (body s) (chapters s) (articles s).
Definition with_body (s : Parser) (v : option ref) : Parser :=
  mkParser (doc s) (root s) (act s) (Some v) (chapters s) (articles s).
Definition with_chapters (s : Parser) (v : list chapter) : Parser :=
  mkParser (doc s) (root s) (act s) (body s) (Some v) (articles s).
Definition with_articles (s : Parser) (v : list article) : Parser :=
  mkParser (doc s) (root s) (act s) (body s) (chapters s) (Some v).

Definition set_act (v : option ref) : M unit :=
  fun s => (with_act s v, Return tt).
Definition set_body (v : option ref) : M unit :=
  fun s => (with_body s v, Return tt).
Definition set_chapters (v : list chapter) : M unit :=
  fun s => (with_chapters s v, Return tt).
Definition set_articles (v : list article) : M unit :=
  fun s => (with_articles s v, Return tt).

Definition self_chapters : M (list chapter) :=
  fun s =>
    match chapters s with
    | Some v => (s, Return v)
    | None => (s, Raise AttributeError)
    end.

Definition self_articles : M (list article) :=
  fun s =>
    match articles s with
    | Some v => (s, Return v)
    | None => (s, Raise AttributeError)
    end.

(** ** The methods *)

(** The body of the loop of [remove_node], for one [item]. *)
Definition remove_item (item : ref) : M unit :=
  parts <- itertext_ item ;;
  let text := strip (join (lit " ") parts) in
  parent <- getparent_ item ;;
  tail_text <- tail_ item ;;
  match parent with
  | Some p => remove_ p item
  | None => ret tt
  end ;;
  if truthy tail_text then
    p <- deref parent ;;
    siblings <- getchildren_ p ;;
    match siblings with
    | _ :: _ =>
        let previous_sibling := last siblings [] in
        t <- tail_ previous_sibling ;;
        set_tail_ previous_sibling (or_empty t ++ or_empty tail_text)
    | [] =>
        t <- text_ p ;;
        set_text_ p (or_empty t ++ or_empty tail_text)
    end
  else ret tt.

(** [remove_node(self, tree, node)] *)
Definition remove_node (tree : ref) (node : path) : M ref :=
  items <- findall_ tree node ;;
  for_ items remove_item ;;
  ret tree.

(** [get_root(self, file)].  [file] stands for what
    [open(file, 'r', encoding='utf-8')] and [etree.parse(f)] give for the
    path: the tree read from the file, or the exception one of them
    raises ([OSError] when the file cannot be opened, [XMLSyntaxError]
    when it is not well-formed XML), which leaves the method before
    anything is assigned.  With a tree, [self.root] is assigned its root
    element and nothing else; the store then holds the tree just read.
    (The store holds one document, the one read last: the statements
    follow a parser object from its first [get_root], and none follows
    a reference into a document read earlier, which [self.act] and
    [self.body] would still hold after a second one.) *)
Definition get_root (file : outcome xml) : M ref :=
  fun s =>
    match file with
    | Return tree =>
        (mkParser (etree.parse tree) (Some [])
                  (act s) (body s) (chapters s) (articles s),
         Return [])
    | Raise e => (s, Raise e)
    end.

(** The parser right after [AkomaNtosoParser()] and a [get_root(file)]
    that read [tree]: only [self.root] is assigned. *)
Definition loaded (tree : xml) : Parser :=
  mkParser (etree.parse tree) (Some []) None None None None.

(** [parent.find(child).get(key)] and [parent.find(child).text] *)
Definition find_get (parent : ref) (child key : string)
  : M (option str) :=
  e <- find_ parent [Child child] ;;
  e <- deref e ;;
  get_ e key.

Definition find_text (parent : ref) (child : string) : M (option str) :=
  e <- find_ parent [Child child] ;;
  e <- deref e ;;
  text_ e.

(** [_get_frbr_work(self, identification)] *)
Definition _get_frbr_work (identification : ref) : M (option frbr_work) :=
  found <- find_ identification [Child (akn "FRBRWork")] ;;
  match found with
  | None => ret None
  | Some frbr_work =>
      FRBRthis <- find_get frbr_work (akn "FRBRthis") "value" ;;
      FRBRuri <- find_get frbr_work (akn "FRBRuri") "value" ;;
      FRBRalias <- find_get frbr_work (akn "FRBRalias") "value" ;;
      FRBRdate <- find_get frbr_work (akn "FRBRdate") "date" ;;
      FRBRauthor <- find_get frbr_work (akn "FRBRauthor") "href" ;;
      FRBRcountry <- find_get frbr_work (akn "FRBRcountry") "value" ;;
      FRBRnumber <- find_get frbr_work (akn "FRBRnumber") "value" ;;
      ret (Some (mkWork FRBRthis FRBRuri FRBRalias FRBRdate FRBRauthor
                        FRBRcountry FRBRnumber))
  end.

(** [_get_frbr_expression(self, identification)] *)
Definition _get_frbr_expression (identification : ref)
  : M (option frbr_expression) :=
  found <- find_ identification [Child (akn "FRBRExpression")] ;;
  match found with
  | None => ret None
  | Some frbr_expression =>
      FRBRthis <- find_get frbr_expression (akn "FRBRthis") "value" ;;
      FRBRuri <- find_get frbr_expression (akn "FRBRuri") "value" ;;
      FRBRdate <- find_get frbr_expression (akn "FRBRdate") "date" ;;
      FRBRauthor <- find_get frbr_expression (akn "FRBRauthor") "href" ;;
      FRBRlanguage <-
        find_get frbr_expression (akn "FRBRlanguage") "language" ;;
      ret (Some (mkExpression FRBRthis FRBRuri FRBRdate FRBRauthor
                              FRBRlanguage))
  end.

(** [_get_frbr_manifestation(self, identification)] *)
Definition _get_frbr_manifestation (identification : ref)
  : M (option frbr_manifestation) :=
  found <- find_ identification [Child (akn "FRBRManifestation")] ;;
  match found with
  | None => ret None
  | Some frbr_manifestation =>
      FRBRthis <- find_get frbr_manifestation (akn "FRBRthis") "value" ;;
      FRBRuri <- find_get frbr_manifestation (akn "FRBRuri") "value" ;;
      FRBRdate <- find_get frbr_manifestation (akn "FRBRdate") "date" ;;
      FRBRauthor <- find_get frbr_manifestation (akn "FRBRauthor") "href" ;;
      ret (Some (mkManifestation FRBRthis FRBRuri FRBRdate FRBRauthor))
  end.

(** [get_meta_identification(self)] *)
Definition get_meta_identification : M (option frbr_data) :=
  root <- self_root ;;
  found <- find_ root [Descendant (akn "meta");
                       Child (akn "identification")] ;;
  match found with
  | None => ret None
  | Some identification =>
      w <- _get_frbr_work identification ;;
      e <- _get_frbr_expression identification ;;
      m <- _get_frbr_manifestation identification ;;
      ret (Some (mkFrbr w e m))
  end.

(** [get_meta_references(self)] *)
Definition get_meta_references : M (option references) :=
  root <- self_root ;;
  found <- find_ root [Descendant (akn "meta"); Child (akn "references");
                       Child (akn "TLCOrganization")] ;;
  match found with
  | None => ret None
  | Some references =>
      eId <- get_ references "eId" ;;
      href <- get_ references "href" ;;
      showAs <- get_ references "showAs" ;;
      ret (Some (mkReferences eId href showAs))
  end.

(** [get_meta_proprietary(self)] *)
Definition get_meta_proprietary : M (option proprietary) :=
  root <- self_root ;;
  found <- find_ root [Descendant (akn "meta");
                       Child (akn "proprietary")] ;;
  match found with
  | None => ret None
  | Some proprietary =>
      found <- find_ proprietary [Child (fmx "DOCUMENT.REF")] ;;
      match found with
      | None => ret None
      | Some document_ref =>
          file <- get_ document_ref "FILE" ;;
          coll <- find_text document_ref (fmx "COLL") ;;
          year <- find_text document_ref (fmx "YEAR") ;;
          lg_doc <- find_text proprietary (fmx "LG.DOC") ;;
          no_seq <- find_text proprietary (fmx "NO.SEQ") ;;
          ret (Some (mkProprietary file coll year lg_doc no_seq))
      end
  end.

(** [''.join(e.itertext()).strip()] *)
Definition full_text (e : ref) : M str :=
  parts <- itertext_ e ;;
  ret (strip (join [] parts)).

(** [' '.join(p.text.strip() for p in e.findall('akn:p') if p.text)] *)
Definition direct_paragraph_text (e : ref) : M str :=
  ps <- findall_ e [Child (akn "p")] ;;
  parts <- foldM (fun parts p =>
                    t <- text_ p ;;
                    if truthy t
                    then ret (parts ++ [strip (or_empty t)])
                    else ret parts) ps [] ;;
  ret (join (lit " ") parts).

(** [get_preface(self)] *)
Definition get_preface : M (option (list str)) :=
  root <- self_root ;;
  found <- find_ root [Descendant (akn "preface")] ;;
  match found with
  | None => ret None
  | Some preface =>
      ps <- findall_ preface [Child (akn "p")] ;;
      paragraphs <- foldM (fun paragraphs p =>
                             paragraph_text <- full_text p ;;
                             ret (paragraphs ++ [paragraph_text])) ps [] ;;
      ret (Some paragraphs)
  end.

(** [get_preamble_formula(self)] *)
Definition get_preamble_formula : M (option str) :=
  root <- self_root ;;
  found <- find_ root [Descendant (akn "preamble");
                       Child (akn "formula")] ;;
  match found with
  | None => ret None
  | Some formula =>
      formula_text <- direct_paragraph_text formula ;;
      ret (Some formula_text)
  end.

(** [get_preamble_citations(self)] *)
Definition get_preamble_citations : M (option (list citation)) :=
  root <- self_root ;;
  found <- find_ root [Descendant (akn "preamble");
                       Child (akn "citations")] ;;
  match found with
  | None => ret None
  | Some citations_section =>
      citations_section <-
        remove_node citations_section [Descendant (akn "authorialNote")] ;;
      cs <- findall_ citations_section [Child (akn "citation")] ;;
      citations_text <-
        foldM (fun citations_text citation =>
                 citation_text <- full_text citation ;;
                 ret (citations_text ++ [mkCitation citation_text]))
              cs [] ;;
      ret (Some citations_text)
  end.

(** The text of one recital:
    [' '.join(' '.join(p.itertext()).strip()
              for p in recital.findall('akn:p'))]
    and then [re.sub(r'\s+', ' ', recital_text)]. *)
Definition recital_text_of (recital : ref) : M str :=
  ps <- findall_ recital [Child (akn "p")] ;;
  parts <- mapM (fun p =>
                   ts <- itertext_ p ;;
                   ret (strip (join (lit " ") ts))) ps ;;
  let recital_text := join (lit " ") parts in
  ret (re_sub_ws recital_text).

(** [get_preamble_recitals(self)] *)
Definition get_preamble_recitals : M (option (list recital)) :=
  root <- self_root ;;
  found <- find_ root [Descendant (akn "preamble");
                       Child (akn "recitals")] ;;
  match found with
  | None => ret None
  | Some recitals_section =>
      let recitals_text := [] in
      recitals_intro <- find_ recitals_section [Child (akn "intro")] ;;
      intro <- deref recitals_intro ;;
      recitals_intro_eId <- get_ intro "eId" ;;
      recitals_intro_text <- direct_paragraph_text intro ;;
      let recitals_text :=
        recitals_text ++ [mkRecital recitals_intro_text recitals_intro_eId]
      in
      recitals_section <-
        remove_node recitals_section [Descendant (akn "authorialNote")] ;;
      rs <- findall_ recitals_section [Child (akn "recital")] ;;
      recitals_text <-
        foldM (fun recitals_text recital =>
                 e <- get_ recital "eId" ;;
                 let eId := str_of e in
                 recital_text <- recital_text_of recital ;;
                 ret (recitals_text ++ [mkRecital recital_text (Some eId)]))
              rs recitals_text ;;
      ret (Some recitals_text)
  end.

(** [get_preamble(self)] *)
Definition get_preamble : M preamble :=
  f <- get_preamble_formula ;;
  c <- get_preamble_citations ;;
  r <- get_preamble_recitals ;;
  ret (mkPreamble f c r).

(** [get_act(self)] *)
Definition get_act : M unit :=
  root <- self_root ;;
  found <- find_ root [Descendant (akn "act")] ;;
  set_act found ;;
  match found with
  | None =>
      fallback <- find_ root [Descendant "act"] ;;
      set_act fallback
  | Some _ => ret tt
  end.

(** [get_body(self)] *)
Definition get_body : M unit :=
  root <- self_root ;;
  found <- find_ root [Descendant (akn "body")] ;;
  set_body found ;;
  match found with
  | None =>
      fallback <- find_ root [Descendant "body"] ;;
      set_body fallback
  | Some _ => ret tt
  end.

(** The body of the loop of [get_chapters], for one [chapter]. *)
Definition append_chapter (chapter : ref) : M unit :=
  eId <- get_ chapter "eId" ;;
  chapter_num <- find_ chapter [Child (akn "num")] ;;
  chapter_heading <- find_ chapter [Child (akn "heading")] ;;
  num <- match chapter_num with
         | Some n => text_ n
         | None => ret None
         end ;;
  heading <- match chapter_heading with
             | Some h => t <- full_text h ;; ret (Some t)
             | None => ret None
             end ;;
  chapters <- self_chapters ;;
  set_chapters (chapters ++ [mkChapter eId num heading]).

(** [get_chapters(self)]: the records go to [self.chapters]; the method
    returns [None]. *)
Definition get_chapters : M unit :=
  set_chapters [] ;;
  root <- self_root ;;
  cs <- findall_ root [Descendant (akn "chapter")] ;;
  for_ cs append_chapter ;;
  ret tt.

(** The [while] loop of [get_text_by_eId], started at
    [current_element]: the value of [eId] when the loop ends.  The loop
    moves to [current_element.getparent()], which is one step up the
    reference ([climb_unfold] below states the loop body); it ends at the
    first element whose [eId] is true, or with the last [eId] read when
    there is no parent left. *)
Fixpoint climb (d : Doc) (current_element : ref) : option str :=
  let eId := get d current_element "eId" in
  if truthy eId then eId
  else
    match current_element with
    | [] => eId
    | _ :: up => if is_unlinked d current_element then eId else climb d up
    end.

(** [get_text_by_eId(self, node)] *)
Definition get_text_by_eId (node : ref) : M (list element) :=
  ps <- findall_ node [Descendant (akn "p")] ;;
  foldM (fun elements p =>
           eId <- read (fun d => climb d p) ;;
           if truthy eId then
             p_text <- full_text p ;;
             ret (elements ++ [mkElement (or_empty eId) p_text])
           else ret elements) ps [].

(** The body of the loop of [get_articles], for one [article]. *)
Definition append_article (article : ref) : M unit :=
  eId <- get_ article "eId" ;;
  article_num <- find_ article [Child (akn "num")] ;;
  article_num_text <- match article_num with
                      | Some n => text_ n
                      | None => ret None
                      end ;;
  article_title_element <- find_ article [Child (akn "heading")] ;;
  article_title_element <-
    match article_title_element with
    | None =>
        nums <- findall_ article [Child (akn "num")] ;;
        if 1 <? List.length nums then ret (nth_error nums 1)
        else ret None
    | Some h => ret (Some h)
    end ;;
  article_title_text <- match article_title_element with
                        | Some t => text_ t
                        | None => ret None
                        end ;;
  article_text <- get_text_by_eId article ;;
  articles <- self_articles ;;
  set_articles
    (articles ++ [mkArticle eId article_num_text article_title_text
                            article_text]).

(** [get_articles(self)].  [self.body] holding [None] fails in
    [remove_node] at [tree.findall], before anything is changed. *)
Definition get_articles : M (list article) :=
  set_articles [] ;;
  b <- self_body ;;
  tree <- deref b ;;
  b <- remove_node tree [Descendant (akn "authorialNote")] ;;
  set_body (Some b) ;;
  arts <- findall_ b [Descendant (akn "article")] ;;
  for_ arts append_article ;;
  self_articles.

(** [parse(self, file)]; [file] as for [get_root]. *)
Definition parse (file : outcome xml) : M unit :=
  get_root file ;;
  get_body.

End AkomaNtosoParser.

(* ================================================================== *)
(** * Vocabulary of the properties *)
(* ================================================================== *)

Import py etree AkomaNtosoParser.
Local Open Scope py_scope.

(** ** The tree *)

(** [e] is an element of the parsed tree. *)
Definition valid (d : Doc) (e : ref) : Prop := node_at (parsed d) e <> None.

(** [e] is linked somewhere beneath [a]: walking up with [getparent] from
    [e] reaches [a]. *)
Inductive beneath (d : Doc) (a : ref) : ref -> Prop :=
| beneath_child e : getparent d e = Some a -> valid d e -> beneath d a e
| beneath_step e p :
    getparent d e = Some p -> valid d e -> beneath d a p -> beneath d a e.

(** Document order.  On the child indices read from the root down, an
    element comes before the elements beneath it, and before the elements
    whose index is larger where the two ways part. *)
Fixpoint path_lt (a b : list nat) : bool :=
  match a, b with
  | [], _ :: _ => true
  | x :: a', y :: b' => (x <? y) || ((x =? y) && path_lt a' b')
  | _, [] => false
  end.

Definition before (a b : ref) : Prop := path_lt (rev a) (rev b) = true.

(** The parsed tree [x] has an element tagged [t]. *)
Fixpoint mentions (t : string) (x : xml) : bool :=
  String.eqb (xtag x) t || existsb (mentions t) (xchildren x).

Definition step_tag (st : step) : string :=
  match st with
  | Child t => t
  | Descendant t => t
  end.

(** ** The store after [remove_node] *)

(** Where [remove_item] puts the tail [t] of an element it took out of
    [p]: behind the tail of the last child [p] has left, or behind the
    text of [p] when it has none left. *)
Definition keep_tail (d : Doc) (p : ref) (t : str) : Doc :=
  match getchildren d p with
  | [] => set_text d p (Some (or_empty (text d p) ++ t))
  | c :: cs => set_tail d (last (c :: cs) [])
                 (Some (or_empty (tail d (last (c :: cs) [])) ++ t))
  end.

(** The store after [remove_item] on an [item] linked under [p]. *)
Definition remove_item_doc (d : Doc) (p item : ref) : Doc :=
  if truthy (tail d item)
  then keep_tail (unlink d item) p (or_empty (tail d item))
  else unlink d item.

(** The store after the loop of [remove_node] over [items]. *)
Definition remove_items (d : Doc) (items : list ref) : Doc :=
  fold_left (fun d item =>
               match getparent d item with
               | Some p => remove_item_doc d p item
               | None => d
               end) items d.

(** The store after [remove_node(tree, node)]. *)
Definition stripped (d : Doc) (tree : ref) (node : path) : Doc :=
  remove_items d (findall d tree node).

(** [d'] is [d] with possibly more elements unlinked and other texts. *)
Definition shrinks (d d' : Doc) : Prop :=
  parsed d' = parsed d
  /\ forall r, is_unlinked d r = true -> is_unlinked d' r = true.

(** [s'] has the fields of [s], the store apart. *)
Definition same_fields (s s' : Parser) : Prop :=
  root s' = root s /\ act s' = act s /\ body s' = body s
  /\ chapters s' = chapters s /\ articles s' = articles s.

(** ** Methods that only read *)

(** The method returns [f] of the store and leaves the parser as it
    was. *)
Definition reads {A} (m : M A) (f : Doc -> A) : Prop :=
  forall s, m s = (s, Return (f (doc s))).

(** [s] with other values in [self.act] and [self.body]. *)
Definition relocated (s : Parser) (a b : option (option ref)) : Parser :=
  mkParser (doc s) (root s) a b (chapters s) (articles s).

(** The method neither reads nor assigns [self.act] and [self.body]. *)
Definition ignores_locators {A} (m : M A) : Prop :=
  forall s a b, m (relocated s a b) = (relocated (fst (m s)) a b, snd (m s)).

(** ** What the specification says the operations give *)

(** [e], its parent, the parent of its parent, and so on as far as
    [getparent] goes. *)
Fixpoint ancestors_or_self (d : Doc) (e : ref) : list ref :=
  e :: match e with
       | [] => []
       | _ :: up => if is_unlinked d e then [] else ancestors_or_self d up
       end.

(** [a] carries a non-empty [eId]. *)
Definition identified (d : Doc) (a : ref) : bool := truthy (get d a "eId").

(** The nearest ancestor-or-self of [p] that carries a non-empty [eId]. *)
Definition nearest_identified (d : Doc) (p : ref) : option ref :=
  List.find (identified d) (ancestors_or_self d p).

(** The paragraph elements linked beneath [node], in document order. *)
Definition paragraphs (d : Doc) (node : ref) : list ref :=
  filter (fun e => String.eqb (tag d e) (akn "p")) (descendants d node).

(** The full descendant text of [e], trimmed. *)
Definition full_text_of (d : Doc) (e : ref) : str :=
  strip (join [] (itertext d e)).

(** Paragraph grouping as the specification words it: for each paragraph
    beneath [node] the identifier of its nearest identified
    ancestor-or-self and its trimmed full text; nothing for a paragraph
    that has none. *)
Definition text_by_eId (d : Doc) (node : ref) : list element :=
  flat_map (fun p =>
              match nearest_identified d p with
              | Some a =>
                  [mkElement (or_empty (get d a "eId")) (full_text_of d p)]
              | None => []
              end) (paragraphs d node).

(** The record of a chapter as the specification words it. *)
Definition chapter_of (d : Doc) (c : ref) : chapter :=
  mkChapter (get d c "eId")
    (match find d c [Child (akn "num")] with
     | Some n => text d n
     | None => None
     end)
    (match find d c [Child (akn "heading")] with
     | Some h => Some (full_text_of d h)
     | None => None
     end).

(** The title of an article as the specification words it: the direct text
    of a heading child; without one, the direct text of the second number
    child when there is more than one; otherwise nothing. *)
Definition article_title_of (d : Doc) (article : ref) : option str :=
  match find d article [Child (akn "heading")] with
  | Some heading => text d heading
  | None =>
      match findall d article [Child (akn "num")] with
      | _ :: second :: _ => text d second
      | _ => None
      end
  end.

Definition article_of (d : Doc) (a : ref) : article :=
  mkArticle (get d a "eId")
    (match find d a [Child (akn "num")] with
     | Some n => text d n
     | None => None
     end)
    (article_title_of d a)
    (text_by_eId d a).

(** The parser after [get_articles] on the located body [b]. *)
Definition after_get_articles (s : Parser) (b : ref) : Parser :=
  let d := stripped (doc s) b [Descendant (akn "authorialNote")] in
  mkParser d (root s) (act s) (Some (Some b)) (chapters s)
    (Some (map (article_of d) (findall d b [Descendant (akn "article")]))).

(** [parent] has a child tagged [t]; the attribute [key] and the text of
    the first such child. *)
Definition has_child (d : Doc) (parent : ref) (t : string) : bool :=
  match find d parent [Child t] with
  | Some _ => true
  | None => false
  end.

Definition child_attr (d : Doc) (parent : ref) (t key : string)
  : option str :=
  match find d parent [Child t] with
  | Some e => get d e key
  | None => None
  end.

Definition child_text (d : Doc) (parent : ref) (t : string) : option str :=
  match find d parent [Child t] with
  | Some e => text d e
  | None => None
  end.

(** The child elements each metadata extractor reads, and the records
    they give when all are there. *)
Definition work_children : list string :=
  [akn "FRBRthis"; akn "FRBRuri"; akn "FRBRalias"; akn "FRBRdate";
   akn "FRBRauthor"; akn "FRBRcountry"; akn "FRBRnumber"].

Definition expression_children : list string :=
  [akn "FRBRthis"; akn "FRBRuri"; akn "FRBRdate"; akn "FRBRauthor";
   akn "FRBRlanguage"].

Definition manifestation_children : list string :=
  [akn "FRBRthis"; akn "FRBRuri"; akn "FRBRdate"; akn "FRBRauthor"].

Definition work_of (d : Doc) (w : ref) : frbr_work :=
  mkWork (child_attr d w (akn "FRBRthis") "value")
         (child_attr d w (akn "FRBRuri") "value")
         (child_attr d w (akn "FRBRalias") "value")
         (child_attr d w (akn "FRBRdate") "date")
         (child_attr d w (akn "FRBRauthor") "href")
         (child_attr d w (akn "FRBRcountry") "value")
         (child_attr d w (akn "FRBRnumber") "value").

Definition expression_of (d : Doc) (e : ref) : frbr_expression :=
  mkExpression (child_attr d e (akn "FRBRthis") "value")
               (child_attr d e (akn "FRBRuri") "value")
               (child_attr d e (akn "FRBRdate") "date")
               (child_attr d e (akn "FRBRauthor") "href")
               (child_attr d e (akn "FRBRlanguage") "language").

Definition manifestation_of (d : Doc) (m : ref) : frbr_manifestation :=
  mkManifestation (child_attr d m (akn "FRBRthis") "value")
                  (child_attr d m (akn "FRBRuri") "value")
                  (child_attr d m (akn "FRBRdate") "date")
                  (child_attr d m (akn "FRBRauthor") "href").

Definition proprietary_of (d : Doc) (pr dr : ref) : proprietary :=
  mkProprietary (get d dr "FILE")
                (child_text d dr (fmx "COLL"))
                (child_text d dr (fmx "YEAR"))
                (child_text d pr (fmx "LG.DOC"))
                (child_text d pr (fmx "NO.SEQ")).

(** The trimmed direct text of the [p] children of [e] that have direct
    text, joined by single spaces. *)
Definition direct_text_of (d : Doc) (e : ref) : str :=
  join (lit " ")
    (flat_map (fun p => if truthy (text d p)
                        then [strip (or_empty (text d p))] else [])
              (findall d e [Child (akn "p")])).

(** The text fragments beneath each [p] child of [recital] joined by single
    spaces and trimmed, the paragraphs joined by single spaces, whitespace
    runs collapsed. *)
Definition recital_text_in (d : Doc) (recital : ref) : str :=
  re_sub_ws
    (join (lit " ")
       (map (fun p => strip (join (lit " ") (itertext d p)))
            (findall d recital [Child (akn "p")]))).

(** The text of a recital as the specification words it: the full
    descendant text of each paragraph (the concatenation of its text
    fragments), the paragraphs joined by single spaces, whitespace runs
    collapsed. *)
Definition recital_text_as_stated (d : Doc) (recital : ref) : str :=
  re_sub_ws
    (join (lit " ")
       (map (fun p => join [] (itertext d p))
            (findall d recital [Child (akn "p")]))).

Definition recital_of (d : Doc) (rc : ref) : recital :=
  mkRecital (recital_text_in d rc) (Some (str_of (get d rc "eId"))).

(** No whitespace character other than U+0020, and no two whitespace
    characters in a row. *)
Fixpoint collapsed (s : str) : Prop :=
  match s with
  | [] => True
  | c :: rest =>
      (isspace c = true -> c = 32%N /\ match rest with
                                       | c' :: _ => isspace c' = false
                                       | [] => True
                                       end)
      /\ collapsed rest
  end.

(** ** What stripping leaves alone *)

(** [r] stands in the parsed tree at [tree] or beneath it; strictly
    beneath it. *)
Definition at_or_under (tree r : ref) : Prop := exists pre, r = pre ++ tree.

Definition under (tree r : ref) : Prop :=
  exists pre, r = pre ++ tree /\ pre <> [].

(** The text and the tail of every element of [d'] begin with what they
    were in [d]. *)
Definition extends (d d' : Doc) : Prop :=
  forall e,
    (exists more, or_empty (text d' e) = or_empty (text d e) ++ more)
    /\ (exists more, or_empty (tail d' e) = or_empty (tail d e) ++ more).

(** Outside the subtree at [tree] the stores [d] and [d'] agree: the same
    elements are linked, with the same tails, also at [tree] itself, and
    the same texts except at [tree] and beneath it. *)
Definition same_outside (tree : ref) (d d' : Doc) : Prop :=
  forall r,
    (~ under tree r ->
     is_unlinked d' r = is_unlinked d r /\ tail d' r = tail d r)
    /\ (~ at_or_under tree r -> text d' r = text d r).

(** ** Further vocabulary of the extractions *)

(** [s] neither begins nor ends with a whitespace character. *)
Definition trimmed (s : str) : Prop :=
  (forall c rest, s = c :: rest -> isspace c = false)
  /\ (forall c front, s = front ++ [c] -> isspace c = false).

(** What a method of [_get_frbr_*] gives for the block tagged [t] of
    [identification]: nothing without the block, the record [record]
    when the block has all of [children], an error otherwise. *)
Definition frbr_block {A} (d : Doc) (identification : ref) (t : string)
    (children : list string) (record : Doc -> ref -> A)
  : outcome (option A) :=
  match find d identification [Child t] with
  | None => Return None
  | Some e =>
      if forallb (has_child d e) children
      then Return (Some (record d e))
      else Raise AttributeError
  end.

(** The element [get_act] and [get_body] store for the local name
    [local]: the first one in the document's namespace, or else the first
    one without a namespace. *)
Definition located (d : Doc) (r : ref) (local : string) : option ref :=
  match find d r [Descendant (akn local)] with
  | Some e => Some e
  | None => find d r [Descendant local]
  end.

(** A parser object on which [get_root] has not run; [d] stands for what
    the store holds, which no method reaches without [self.root]. *)
Definition unloaded (d : Doc) : Parser := mkParser d None None None None None.

(** [x] is one of [l]. *)
Definition among (l : list ref) (x : ref) : bool := existsb (ref_eqb x) l.

(** The record of a citation: its full descendant text, trimmed. *)
Definition citation_of (d : Doc) (c : ref) : citation :=
  mkCitation (full_text_of d c).

(** ** Documents used as examples *)

Definition attr (k v : string) : string * str := (k, lit v).

Definition leaf (t : string) (attrs : list (string * str)) (content : string)
  : xml := Element t attrs (Some (lit content)) [] None.

Definition frbr (t k v : string) : xml :=
  Element (akn t) [attr k v] None [] None.

(** The selector ['.//akn:authorialNote']. *)
Definition note : path := [Descendant (akn "authorialNote")].

(** [<p>foo <authorialNote>X</authorialNote> bar</p>] *)
Definition doc_note_last : xml :=
  Element (akn "p") [] (Some (lit "foo "))
    [Element (akn "authorialNote") [] (Some (lit "X")) [] (Some (lit " bar"))]
    None.

(** [<p>foo <authorialNote>X</authorialNote> bar <b>baz</b> qux</p>] *)
Definition doc_note_then_sibling : xml :=
  Element (akn "p") [] (Some (lit "foo "))
    [Element (akn "authorialNote") [] (Some (lit "X")) [] (Some (lit " bar "));
     Element (akn "b") [] (Some (lit "baz")) [] (Some (lit " qux"))]
    None.

(** [<p><i>a</i> b <authorialNote>X</authorialNote> c <b>d</b> e</p>] *)
Definition doc_note_between : xml :=
  Element (akn "p") [] None
    [Element (akn "i") [] (Some (lit "a")) [] (Some (lit " b "));
     Element (akn "authorialNote") [] (Some (lit "X")) [] (Some (lit " c "));
     Element (akn "b") [] (Some (lit "d")) [] (Some (lit " e"))]
    None.

(** The store after [remove_node(root, './/akn:authorialNote')] on the
    freshly parsed [x]. *)
Definition after_strip (x : xml) : Doc :=
  doc (exec (remove_node [] note) (loaded x)).

(** An article with an unidentified paragraph, two paragraphs under the
    element identified [1] and one under the element identified [2]. *)
Definition doc_paragraphs : xml :=
  Element (akn "article") [] None
    [leaf (akn "p") [] "p0";
     Element (akn "paragraph") [attr "eId" "1"] None
       [leaf (akn "p") [] "p1";
        Element (akn "content") [] None [leaf (akn "p") [] " p2 "] None]
       None;
     Element (akn "paragraph") [attr "eId" "2"] None
       [Element (akn "p") [] (Some (lit "p3"))
          [leaf (akn "b") [] "!"] None]
       None]
    None.

(** An identification block whose [FRBRthis] has no [value] attribute. *)
Definition doc_work_without_value : xml :=
  Element (akn "akomaNtoso") [] None
    [Element (akn "act") [] None
       [Element (akn "meta") [] None
          [Element (akn "identification") [] None
             [Element (akn "FRBRWork") [] None
                [Element (akn "FRBRthis") [] None [] None;
                 frbr "FRBRuri" "value" "/akn/eu/act/2024/1";
                 frbr "FRBRalias" "value" "alias";
                 frbr "FRBRdate" "date" "2024-01-01";
                 frbr "FRBRauthor" "href" "#council";
                 frbr "FRBRcountry" "value" "eu";
                 frbr "FRBRnumber" "value" "1"]
                None]
             None;
           Element (akn "proprietary") [] None [] None]
          None]
       None]
    None.

(** A preamble whose recital has inline markup. *)
Definition doc_recitals : xml :=
  Element (akn "akomaNtoso") [] None
    [Element (akn "preamble") [] None
       [Element (akn "recitals") [] None
          [Element (akn "intro") [attr "eId" "rec_intro"] None
             [leaf (akn "p") [] " Whereas: "] None;
           Element (akn "recital") [attr "eId" "rec_1"] None
             [Element (akn "p") [] (Some (lit "foo"))
                [leaf (akn "b") [] "bar"] None]
             None]
          None]
       None]
    None.

(** Recitals without an intro. *)
Definition doc_recitals_without_intro : xml :=
  Element (akn "akomaNtoso") [] None
    [Element (akn "preamble") [] None
       [Element (akn "recitals") [] None
          [Element (akn "recital") [attr "eId" "rec_1"] None
             [leaf (akn "p") [] "text"] None]
          None]
       None]
    None.

(** A body with one chapter; its heading carries a note, its article has
    two numbers and no heading. *)
Definition doc_chapter : xml :=
  Element (akn "akomaNtoso") [] None
    [Element (akn "act") [] None
       [Element (akn "body") [] None
          [Element (akn "chapter") [attr "eId" "chp_1"] None
             [leaf (akn "num") [] "I";
              Element (akn "heading") [] (Some (lit "General"))
                [Element (akn "authorialNote") [] None
                   [leaf (akn "p") [] "n"] (Some (lit " provisions"))]
                None;
              Element (akn "article") [attr "eId" "art_1"] None
                [leaf (akn "num") [] "Article 1";
                 leaf (akn "num") [] "Scope";
                 Element (akn "paragraph") [attr "eId" "art_1__para_1"] None
                   [leaf (akn "p") [] "First."] None;
                 Element (akn "paragraph") [attr "eId" "art_1__para_2"] None
                   [leaf (akn "p") [] "Second."] None]
                None]
             None]
          None]
       None]
    None.

(** A complete identification block and a proprietary block. *)
Definition doc_meta : xml :=
  Element (akn "akomaNtoso") [] None
    [Element (akn "act") [] None
       [Element (akn "meta") [] None
          [Element (akn "identification") [] None
             [Element (akn "FRBRWork") [] None
                [frbr "FRBRthis" "value" "/akn/eu/act/2024/1/main";
                 frbr "FRBRuri" "value" "/akn/eu/act/2024/1";
                 frbr "FRBRalias" "value" "alias";
                 frbr "FRBRdate" "date" "2024-01-01";
                 frbr "FRBRauthor" "href" "#council";
                 frbr "FRBRcountry" "value" "eu";
                 frbr "FRBRnumber" "value" "1"]
                None]
             None;
           Element (akn "proprietary") [] None
             [Element (fmx "DOCUMENT.REF") [attr "FILE" "L_2024001EN.xml"] None
                [leaf (fmx "COLL") [] "L"; leaf (fmx "YEAR") [] "2024"] None;
              leaf (fmx "LG.DOC") [] "EN";
              leaf (fmx "NO.SEQ") [] "0001"]
             None]
          None]
       None]
    None.

(** A preface, a formula and a citation that carries a note. *)
Definition doc_front : xml :=
  Element (akn "akomaNtoso") [] None
    [Element (akn "preface") [] None
       [leaf (akn "p") [] " Regulation ";
        Element (akn "p") [] None [leaf (akn "b") [] "of 2024"] None]
       None;
     Element (akn "preamble") [] None
       [Element (akn "formula") [] None
          [leaf (akn "p") [] " THE COUNCIL, "] None;
        Element (akn "citations") [] None
          [Element (akn "citation") [] None
             [Element (akn "p") [] (Some (lit "Having regard to"))
                [Element (akn "authorialNote") [] (Some (lit "1")) []
                   (Some (lit " the Treaty,"))]
                None]
             None]
          None]
       None]
    None.

(** A document without namespaces. *)
Definition doc_plain_body : xml :=
  Element "akomaNtoso" [] None
    [Element "act" [] None
       [Element "body" [] None
          [Element "article" [attr "eId" "art_1"] None [] None] None]
       None]
    None.

(* ================================================================== *)
(** * Properties *)
(* ================================================================== *)

(** ** Induction on trees, equality of references *)

Lemma xml_ind' (P : xml -> Prop) :
  (forall t a tx cs tl, Forall P cs -> P (Element t a tx cs tl)) ->
  forall x, P x.
Proof.
  intros H. fix IH 1. intros [t a tx cs tl]. apply H.
  induction cs as [|c cs IHcs]; constructor; [apply IH | exact IHcs].
Qed.

Lemma ref_eqb_eq a b : ref_eqb a b = true <-> a = b.
Proof.
  unfold ref_eqb. destruct (list_eq_dec Nat.eq_dec a b); split; congruence.
Qed.

Lemma ref_eqb_refl a : ref_eqb a a = true.
Proof. apply ref_eqb_eq. reflexivity. Qed.

Lemma ref_eqb_neq a b : ref_eqb a b = false <-> a <> b.
Proof.
  unfold ref_eqb. destruct (list_eq_dec Nat.eq_dec a b); split; congruence.
Qed.

(** ** The structure of one store *)

Section Store.

Variable d : Doc.

Lemma is_unlinked_In r : is_unlinked d r = true <-> In r (unlinked d).
Proof.
  unfold is_unlinked. rewrite existsb_exists. split.
  - intros [x [Hx E]]. apply ref_eqb_eq in E. subst. exact Hx.
  - intros H. exists r. split; [exact H | apply ref_eqb_refl].
Qed.

Lemma in_over_children {A} e (f : ref -> xml -> list A) cs : forall i a,
  In a (over_children d e f i cs) <->
  exists k c, nth_error cs k = Some c /\ is_unlinked d ((i + k) :: e) = false
              /\ In a (f ((i + k) :: e) c).
Proof.
  induction cs as [|c cs IH]; intros i a; simpl.
  - split; [tauto|]. intros (k & c & H & _). destruct k; discriminate.
  - rewrite in_app_iff, IH. split.
    + intros [H | (k & c' & H1 & H2 & H3)].
      * exists 0, c. rewrite Nat.add_0_r.
        destruct (is_unlinked d (i :: e)); [destruct H | auto].
      * exists (S k), c'. rewrite Nat.add_succ_r. auto.
    + intros (k & c' & H1 & H2 & H3). destruct k as [|k].
      * left. rewrite Nat.add_0_r in *. simpl in H1. injection H1 as <-.
        rewrite H2. exact H3.
      * right. exists k, c'. rewrite Nat.add_succ_r in *. auto.
Qed.

Lemma in_getchildren e c :
  In c (getchildren d e) <->
  exists i, c = i :: e /\ valid d c /\ is_unlinked d c = false.
Proof.
  unfold getchildren, valid. split.
  - destruct (node_at (parsed d) e) as [x|] eqn:E; [|intros []].
    rewrite in_over_children. intros (k & y & H1 & H2 & [H3|[]]).
    simpl in *. subst c. exists k. simpl. rewrite E, H1. repeat split; auto.
    discriminate.
  - intros (i & -> & Hv & Hl). simpl in Hv.
    destruct (node_at (parsed d) e) as [x|] eqn:E; [|congruence].
    rewrite in_over_children.
    destruct (nth_error (xchildren x) i) as [y|] eqn:E'; [|congruence].
    exists i, y. simpl. auto.
Qed.

Lemma in_getchildren_parent e c :
  In c (getchildren d e) <-> getparent d c = Some e /\ valid d c.
Proof.
  rewrite in_getchildren. unfold getparent. split.
  - intros (i & -> & Hv & Hl). rewrite Hl. auto.
  - intros [H Hv]. destruct c as [|i p]; [discriminate|].
    destruct (is_unlinked d (i :: p)) eqn:E; [discriminate|].
    injection H as ->. exists i. auto.
Qed.

Lemma descendants_at_child : forall x e c,
  node_at (parsed d) e = Some x ->
  In c (getchildren d e) -> In c (descendants_at d e x).
Proof.
  intros x e c E H. unfold getchildren in H. rewrite E in H.
  destruct x as [t a tx cs tl]. simpl in *.
  apply in_over_children in H. apply in_over_children.
  destruct H as (k & y & H1 & H2 & [H3|[]]). exists k, y. simpl. auto.
Qed.

Lemma descendants_at_closed : forall x e p c,
  node_at (parsed d) e = Some x ->
  In p (descendants_at d e x) -> In c (getchildren d p) ->
  In c (descendants_at d e x).
Proof.
  induction x as [t a tx cs tl IH] using xml_ind'. intros e p c E Hp Hc.
  simpl in *. apply in_over_children in Hp. apply in_over_children.
  destruct Hp as (k & y & H1 & H2 & H3). exists k, y.
  split; [exact H1|]. split; [exact H2|].
  assert (Ey : node_at (parsed d) ((0 + k) :: e) = Some y).
  { simpl. rewrite E. exact H1. }
  right. destruct H3 as [<- | H3].
  - apply descendants_at_child; assumption.
  - rewrite Forall_forall in IH. apply (IH y) with (p := p); auto.
    eapply nth_error_In; eauto.
Qed.

Lemma in_descendants_at : forall x e r,
  node_at (parsed d) e = Some x ->
  In r (descendants_at d e x) -> beneath d e r.
Proof.
  induction x as [t a tx cs tl IH] using xml_ind'. intros e r E H.
  simpl in H. apply in_over_children in H.
  destruct H as (k & y & H1 & H2 & H3). simpl in H2, H3.
  assert (Ey : node_at (parsed d) (k :: e) = Some y).
  { simpl. rewrite E. exact H1. }
  assert (Hk : beneath d e (k :: e)).
  { apply beneath_child.
    - simpl. rewrite H2. reflexivity.
    - unfold valid. rewrite Ey. discriminate. }
  destruct H3 as [<- | H3]; [exact Hk|].
  rewrite Forall_forall in IH.
  specialize (IH y (nth_error_In _ _ H1) (k :: e) r Ey H3).
  clear - IH Hk. induction IH.
  - eapply beneath_step; eauto.
  - eapply beneath_step; eauto.
Qed.

Lemma in_descendants a r : In r (descendants d a) <-> beneath d a r.
Proof.
  unfold descendants. split.
  - destruct (node_at (parsed d) a) as [x|] eqn:E; [|intros []].
    apply in_descendants_at. exact E.
  - intros H. induction H as [e Hp Hv | e p Hp Hv Hb IH].
    + assert (Hc : In e (getchildren d a))
        by (apply in_getchildren_parent; auto).
      destruct (node_at (parsed d) a) as [x|] eqn:E.
      * apply descendants_at_child; auto.
      * unfold getchildren in Hc. rewrite E in Hc. destruct Hc.
    + destruct (node_at (parsed d) a) as [x|] eqn:E; [|destruct IH].
      eapply descendants_at_closed; eauto.
      apply in_getchildren_parent; auto.
Qed.

Lemma path_lt_irrefl l : path_lt l l = false.
Proof.
  induction l as [|x l IH]; simpl; [reflexivity|].
  rewrite Nat.ltb_irrefl, Nat.eqb_refl, IH. reflexivity.
Qed.

Lemma path_lt_prefix l l' : l' <> [] -> path_lt l (l ++ l') = true.
Proof.
  intros H. induction l as [|x l IH]; simpl.
  - destruct l'; congruence.
  - rewrite Nat.eqb_refl, IH. apply orb_true_r.
Qed.

Lemma path_lt_diff l i j x y :
  i < j -> path_lt (l ++ i :: x) (l ++ j :: y) = true.
Proof.
  intros H. induction l as [|z l IH]; simpl.
  - apply Nat.ltb_lt in H. rewrite H. reflexivity.
  - rewrite Nat.eqb_refl, IH. apply orb_true_r.
Qed.

Lemma beneath_suffix a r :
  beneath d a r -> exists pre, r = pre ++ a /\ pre <> [].
Proof.
  induction 1 as [e Hp _ | e p Hp _ _ (pre & -> & Hne)].
  - destruct e as [|i q]; [discriminate|]. simpl in Hp.
    destruct (is_unlinked d (i :: q)); [discriminate|]. injection Hp as ->.
    exists [i]. split; [reflexivity | discriminate].
  - destruct e as [|i q]; [discriminate|]. simpl in Hp.
    destruct (is_unlinked d (i :: q)); [discriminate|]. injection Hp as ->.
    exists (i :: pre). split; [reflexivity | discriminate].
Qed.

Lemma beneath_linked a r :
  beneath d a r -> is_unlinked d r = false /\ valid d r /\ r <> [].
Proof.
  intros H.
  assert (exists p, getparent d r = Some p /\ valid d r) as (p & Hp & Hv).
  { destruct H; eauto. }
  destruct r as [|i q]; [discriminate|]. simpl in Hp.
  destruct (is_unlinked d (i :: q)); [discriminate|].
  repeat split; auto. discriminate.
Qed.

Lemma before_descendant r pre : pre <> [] -> before r (pre ++ r).
Proof.
  intros H. unfold before. rewrite rev_app_distr. apply path_lt_prefix.
  intros E. apply (f_equal (@rev nat)) in E. rewrite rev_involutive in E.
  simpl in E. congruence.
Qed.

Lemma before_sibling e i j p q : i < j -> before (p ++ i :: e) (q ++ j :: e).
Proof.
  intros H. unfold before. rewrite !rev_app_distr. simpl.
  rewrite <- !app_assoc. simpl. apply path_lt_diff. exact H.
Qed.

Lemma StronglySorted_app {A} (R : A -> A -> Prop) l1 l2 :
  StronglySorted R l1 -> StronglySorted R l2 ->
  (forall a b, In a l1 -> In b l2 -> R a b) ->
  StronglySorted R (l1 ++ l2).
Proof.
  intros H1 H2 H. induction H1 as [|a l1 H1 IH Ha]; simpl; [exact H2|].
  constructor.
  - apply IH. intros; apply H; simpl; auto.
  - apply Forall_app. split; [exact Ha|].
    apply Forall_forall. intros b Hb. apply H; simpl; auto.
Qed.

Lemma descendants_at_under : forall x e r,
  node_at (parsed d) e = Some x -> In r (descendants_at d e x) ->
  exists pre, r = pre ++ e /\ pre <> [].
Proof.
  intros. eapply beneath_suffix. eapply in_descendants_at; eauto.
Qed.

Lemma descendants_at_sorted : forall x e,
  node_at (parsed d) e = Some x ->
  StronglySorted before (descendants_at d e x).
Proof.
  induction x as [t a tx cs tl IH] using xml_ind'. intros e E. simpl.
  assert (G : forall i, (forall k c, nth_error cs k = Some c ->
                          node_at (parsed d) ((i + k) :: e) = Some c) ->
            StronglySorted before
              (over_children d e (fun c y => c :: descendants_at d c y) i cs)
            /\ forall r, In r (over_children d e
                                (fun c y => c :: descendants_at d c y) i cs) ->
                 exists pre j, r = pre ++ j :: e /\ i <= j).
  { clear E. induction cs as [|c cs IHcs]; intros i Hn; simpl.
    - split; [constructor | intros r []].
    - inversion IH as [|? ? Hc Hcs]; subst.
      destruct (IHcs Hcs (S i)) as [S1 S2].
      { intros k y Hk. rewrite Nat.add_succ_l, <- Nat.add_succ_r.
        apply Hn. exact Hk. }
      assert (Ec : node_at (parsed d) (i :: e) = Some c).
      { rewrite <- (Nat.add_0_r i). apply Hn. reflexivity. }
      assert (B : forall r, In r (descendants_at d (i :: e) c) ->
                  exists pre, r = pre ++ i :: e /\ pre <> []).
      { intros r Hr. eapply descendants_at_under; eauto. }
      split.
      + apply StronglySorted_app.
        * destruct (is_unlinked d (i :: e)); [constructor|].
          constructor; [apply Hc; exact Ec|].
          apply Forall_forall. intros r Hr.
          destruct (B r Hr) as (pre & -> & Hne).
          apply before_descendant. exact Hne.
        * exact S1.
        * intros r1 r2 H1 H2. destruct (S2 r2 H2) as (q & j & -> & Hj).
          destruct (is_unlinked d (i :: e)); [destruct H1|].
          destruct H1 as [<- | H1].
          -- apply (before_sibling e i j [] q). lia.
          -- destruct (B r1 H1) as (pre & -> & _).
             apply before_sibling. lia.
      + intros r Hr. apply in_app_iff in Hr. destruct Hr as [Hr | Hr].
        * destruct (is_unlinked d (i :: e)); [destruct Hr|].
          destruct Hr as [<- | Hr].
          -- exists [], i. auto.
          -- destruct (B r Hr) as (pre & -> & _). exists pre, i. auto.
        * destruct (S2 r Hr) as (q & j & -> & Hj). exists q, j.
          split; [reflexivity | lia]. }
  apply G. intros k c Hk. simpl. rewrite E. exact Hk.
Qed.

Lemma descendants_sorted a : StronglySorted before (descendants d a).
Proof.
  unfold descendants. destruct (node_at (parsed d) a) eqn:E.
  - apply descendants_at_sorted. exact E.
  - constructor.
Qed.

Lemma before_irrefl r : ~ before r r.
Proof. unfold before. rewrite path_lt_irrefl. discriminate. Qed.

Lemma StronglySorted_NoDup {A} (R : A -> A -> Prop) l :
  (forall a, ~ R a a) -> StronglySorted R l -> NoDup l.
Proof.
  intros Hi H. induction H as [|a l H IH Ha]; constructor; [|exact IH].
  intros Hin. rewrite Forall_forall in Ha. exact (Hi a (Ha a Hin)).
Qed.

Lemma descendants_NoDup a : NoDup (descendants d a).
Proof.
  eapply StronglySorted_NoDup; [exact before_irrefl | apply descendants_sorted].
Qed.

Lemma StronglySorted_filter {A} (R : A -> A -> Prop) f l :
  StronglySorted R l -> StronglySorted R (filter f l).
Proof.
  induction 1 as [|a l H IH Ha]; simpl; [constructor|].
  destruct (f a); [|exact IH]. constructor; [exact IH|].
  rewrite Forall_forall in *. intros b Hb. apply filter_In in Hb. apply Ha, Hb.
Qed.

End Store.

(** ** One step of the loop of [remove_node] *)

Lemma set_doc_doc s d : doc (set_doc s d) = d.
Proof. reflexivity. Qed.

Lemma remove_item_linked item p s :
  getparent (doc s) item = Some p ->
  remove_item item s = (set_doc s (remove_item_doc (doc s) p item), Return tt).
Proof.
  intros Hp. unfold remove_item, remove_item_doc, keep_tail.
  cbv [bind itertext_ getparent_ tail_ read remove_ deref getchildren_ text_
       set_tail_ set_text_ write ret raise].
  rewrite Hp. unfold remove. rewrite Hp, ref_eqb_refl.
  fold (unlink (doc s) item).
  simpl.
  destruct (truthy (tail (doc s) item)); [|reflexivity].
  simpl. destruct (getchildren (unlink (doc s) item) p); reflexivity.
Qed.

Lemma remove_item_unlinked item s :
  getparent (doc s) item = None ->
  remove_item item s =
  (s, if truthy (tail (doc s) item) then Raise AttributeError else Return tt).
Proof.
  intros Hp. unfold remove_item.
  cbv [bind itertext_ getparent_ tail_ read remove_ deref getchildren_ text_
       set_tail_ set_text_ write ret raise].
  rewrite Hp. destruct (truthy (tail (doc s) item)); reflexivity.
Qed.

Lemma shrinks_refl d : shrinks d d.
Proof. split; auto. Qed.

Lemma shrinks_trans d1 d2 d3 : shrinks d1 d2 -> shrinks d2 d3 -> shrinks d1 d3.
Proof. intros [A B] [C D]. split; [congruence | auto]. Qed.

Lemma is_unlinked_unlink d e r :
  is_unlinked (unlink d e) r = ref_eqb r e || is_unlinked d r.
Proof. reflexivity. Qed.

Lemma shrinks_remove_item_doc d p item : shrinks d (remove_item_doc d p item).
Proof.
  unfold remove_item_doc, keep_tail.
  assert (H : shrinks d (unlink d item)).
  { split; [reflexivity|]. intros r Hr. rewrite is_unlinked_unlink, Hr.
    apply orb_true_r. }
  destruct (truthy (tail d item)); [|exact H].
  destruct (getchildren (unlink d item) p); exact H.
Qed.

Lemma remove_item_doc_unlinked d p item :
  is_unlinked (remove_item_doc d p item) item = true.
Proof.
  unfold remove_item_doc, keep_tail.
  assert (H : is_unlinked (unlink d item) item = true).
  { rewrite is_unlinked_unlink, ref_eqb_refl. reflexivity. }
  destruct (truthy (tail d item)); [|exact H].
  destruct (getchildren (unlink d item) p); exact H.
Qed.

Lemma same_fields_refl s : same_fields s s.
Proof. repeat split. Qed.

Lemma same_fields_trans s1 s2 s3 :
  same_fields s1 s2 -> same_fields s2 s3 -> same_fields s1 s3.
Proof. unfold same_fields. intuition congruence. Qed.

Lemma same_fields_set_doc s d : same_fields s (set_doc s d).
Proof. repeat split. Qed.

Lemma remove_item_cases item s :
  (exists p, getparent (doc s) item = Some p /\
     remove_item item s
     = (set_doc s (remove_item_doc (doc s) p item), Return tt))
  \/ (getparent (doc s) item = None /\
      remove_item item s =
      (s, if truthy (tail (doc s) item)
          then Raise AttributeError else Return tt)).
Proof.
  destruct (getparent (doc s) item) as [p|] eqn:E.
  - left. exists p. split; [reflexivity | apply remove_item_linked; exact E].
  - right. split; [reflexivity | apply remove_item_unlinked; exact E].
Qed.

Lemma remove_item_shrinks item s :
  shrinks (doc s) (doc (exec (remove_item item) s))
  /\ same_fields s (exec (remove_item item) s).
Proof.
  unfold exec.
  destruct (remove_item_cases item s) as [(p & _ & ->) | [_ ->]]; simpl.
  - split; [apply shrinks_remove_item_doc | apply same_fields_set_doc].
  - split; [apply shrinks_refl | apply same_fields_refl].
Qed.

Lemma getparent_None d e :
  getparent d e = None -> e <> [] -> is_unlinked d e = true.
Proof.
  destruct e as [|i p]; [congruence|]. simpl.
  destruct (is_unlinked d (i :: p)); [reflexivity | discriminate].
Qed.

Lemma remove_item_done item s s' :
  item <> [] -> remove_item item s = (s', Return tt) ->
  is_unlinked (doc s') item = true.
Proof.
  intros Hne H.
  destruct (remove_item_cases item s) as [(p & _ & E) | [Hp E]];
    rewrite E in H; injection H as <-.
  - simpl. apply remove_item_doc_unlinked.
  - apply getparent_None; assumption.
Qed.

Lemma for_cons {A} (body : A -> M unit) a l s :
  for_ (a :: l) body s =
  match body a s with
  | (s', Return _) => for_ l body s'
  | (s', Raise e) => (s', Raise e)
  end.
Proof.
  unfold for_. simpl. unfold bind.
  destruct (body a s) as [s' [[]|e]]; reflexivity.
Qed.

Lemma for_remove_item_shrinks (l : list ref) : forall s,
  shrinks (doc s) (doc (exec (for_ l remove_item) s))
  /\ same_fields s (exec (for_ l remove_item) s).
Proof.
  induction l as [|a l IH]; intros s.
  - split; [apply shrinks_refl | apply same_fields_refl].
  - unfold exec. rewrite for_cons.
    destruct (remove_item_shrinks a s) as [H1 H2]. unfold exec in H1, H2.
    destruct (remove_item a s) as [s1 [u|e]]; simpl in *.
    + destruct (IH s1) as [H3 H4]. unfold exec in H3, H4.
      split; [eapply shrinks_trans | eapply same_fields_trans]; eauto.
    + auto.
Qed.

Lemma for_remove_item_done (l : list ref) : forall s s',
  ~ In [] l -> for_ l remove_item s = (s', Return tt) ->
  forall a : ref, In a l -> is_unlinked (doc s') a = true.
Proof.
  induction l as [|a l IH]; intros s s' Hne H b Hb; [destruct Hb|].
  rewrite for_cons in H.
  destruct (remove_item a s) as [s1 [[]|e]] eqn:E; [|discriminate].
  destruct Hb as [<- | Hb].
  - assert (Ha : is_unlinked (doc s1) a = true).
    { eapply remove_item_done; eauto. intros ->. apply Hne. left. reflexivity. }
    destruct (for_remove_item_shrinks l s1) as [[_ Hs] _].
    unfold exec in Hs. rewrite H in Hs. simpl in Hs. auto.
  - eapply IH; eauto. intros Hin. apply Hne. right. exact Hin.
Qed.

(** ** [findall] on a store with more elements unlinked *)

Lemma tag_shrinks d d' e : shrinks d d' -> tag d' e = tag d e.
Proof. intros [H _]. unfold tag. rewrite H. reflexivity. Qed.

Lemma is_unlinked_shrinks d d' r :
  shrinks d d' -> is_unlinked d' r = false -> is_unlinked d r = false.
Proof.
  intros [_ H] E. destruct (is_unlinked d r) eqn:E'; [|reflexivity].
  rewrite (H r E') in E. discriminate.
Qed.

Lemma getparent_shrinks d d' r p :
  shrinks d d' -> getparent d' r = Some p -> getparent d r = Some p.
Proof.
  intros Hs. destruct r as [|i q]; simpl; [auto|].
  destruct (is_unlinked d' (i :: q)) eqn:E; [discriminate|].
  rewrite (is_unlinked_shrinks _ _ _ Hs E). auto.
Qed.

Lemma valid_shrinks d d' r : shrinks d d' -> valid d' r -> valid d r.
Proof. intros [H _]. unfold valid. rewrite H. auto. Qed.

Lemma beneath_shrinks d d' a r :
  shrinks d d' -> beneath d' a r -> beneath d a r.
Proof.
  intros Hs. induction 1.
  - apply beneath_child; eauto using getparent_shrinks, valid_shrinks.
  - eapply beneath_step; eauto using getparent_shrinks, valid_shrinks.
Qed.

Lemma select_shrinks d d' s res res' r :
  shrinks d d' -> incl res' res ->
  In r (select d' s res') -> In r (select d s res).
Proof.
  intros Hs Hi. destruct s as [t|t]; simpl; rewrite !in_flat_map;
    intros (x & Hx & Hr); exists x; (split; [apply Hi; exact Hx|]).
  - unfold iterchildren in *. rewrite filter_In in *. destruct Hr as [Hr Ht].
    rewrite (tag_shrinks _ _ _ Hs) in Ht. split; [|exact Ht].
    rewrite in_getchildren_parent in *. destruct Hr.
    eauto using getparent_shrinks, valid_shrinks.
  - unfold iterdescendants in *. rewrite filter_In in *. destruct Hr as [Hr Ht].
    rewrite (tag_shrinks _ _ _ Hs) in Ht. split; [|exact Ht].
    rewrite in_descendants in *. eauto using beneath_shrinks.
Qed.

Lemma findall_app d e p q :
  findall d e (p ++ q)
  = fold_left (fun result s => select d s result) q (findall d e p).
Proof. unfold findall. apply fold_left_app. Qed.

Lemma findall_shrinks d d' e p r :
  shrinks d d' -> In r (findall d' e p) -> In r (findall d e p).
Proof.
  intros Hs. unfold findall. generalize (incl_refl [e]).
  generalize [e] at 1 3 as res'. generalize [e] as res.
  induction p as [|s p IH]; intros res res' Hi; simpl.
  - apply Hi.
  - apply IH. intros x. eapply select_shrinks; eauto.
Qed.

Lemma select_linked d s res r :
  In r (select d s res) -> is_unlinked d r = false /\ r <> [].
Proof.
  destruct s as [t|t]; simpl; rewrite in_flat_map; intros (x & _ & Hr).
  - unfold iterchildren in Hr. apply filter_In in Hr. destruct Hr as [Hr _].
    apply in_getchildren in Hr. destruct Hr as (i & -> & _ & Hl).
    split; [exact Hl | discriminate].
  - unfold iterdescendants in Hr. apply filter_In in Hr. destruct Hr as [Hr _].
    apply in_descendants, beneath_linked in Hr. tauto.
Qed.

Lemma findall_linked d e p r :
  p <> [] -> In r (findall d e p) -> is_unlinked d r = false /\ r <> [].
Proof.
  intros Hp. destruct (exists_last Hp) as (q & s & ->).
  rewrite findall_app. simpl. apply select_linked.
Qed.

(** ** Stripping twice *)

Lemma remove_node_unfold tree node s :
  remove_node tree node s =
  match for_ (findall (doc s) tree node) remove_item s with
  | (s', Return _) => (s', Return tree)
  | (s', Raise e) => (s', Raise e)
  end.
Proof. reflexivity. Qed.

Lemma remove_node_leaves_none tree node s s' r :
  node <> [] -> remove_node tree node s = (s', Return r) ->
  findall (doc s') tree node = [].
Proof.
  intros Hn H. rewrite remove_node_unfold in H.
  destruct (for_ (findall (doc s) tree node) remove_item s)
    as [s1 [[]|e]] eqn:E;
    [|discriminate].
  injection H as <- <-.
  destruct (findall (doc s1) tree node) as [|a l] eqn:F; [reflexivity|].
  exfalso.
  assert (Ha : In a (findall (doc s1) tree node))
    by (rewrite F; left; reflexivity).
  destruct (findall_linked _ _ _ _ Hn Ha) as [Hl _].
  assert (Hs : shrinks (doc s) (doc s1)).
  { destruct (for_remove_item_shrinks (findall (doc s) tree node) s) as [Hs _].
    unfold exec in Hs. rewrite E in Hs. exact Hs. }
  assert (Hd : is_unlinked (doc s1) a = true).
  { eapply for_remove_item_done; eauto.
    - intros Hin. apply (findall_linked _ _ _ _ Hn) in Hin. tauto.
    - eapply findall_shrinks; eauto. }
  congruence.
Qed.

(** ** Selectors of one step *)

Lemma getchildren_NoDup d e : NoDup (getchildren d e).
Proof.
  unfold getchildren. destruct (node_at (parsed d) e) as [x|]; [|constructor].
  generalize 0 as i. induction (xchildren x) as [|c cs IH]; intros i; simpl.
  - constructor.
  - destruct (is_unlinked d (i :: e)); simpl; [apply IH|].
    constructor; [|apply IH]. intros H. apply in_over_children in H.
    destruct H as (k & y & _ & _ & [H|[]]). injection H. lia.
Qed.

Lemma findall_one_NoDup d e s : NoDup (findall d e [s]).
Proof.
  unfold findall. simpl. destruct s as [t|t]; simpl; rewrite app_nil_r.
  - unfold iterchildren. apply NoDup_filter, getchildren_NoDup.
  - unfold iterdescendants. apply NoDup_filter, descendants_NoDup.
Qed.

(** ** Where the tail goes *)

Lemma over_children_unlink d e item cs : forall i,
  over_children (unlink d item) e (fun c _ => [c]) i cs
  = filter (fun c => negb (ref_eqb c item))
      (over_children d e (fun c _ => [c]) i cs).
Proof.
  induction cs as [|c cs IH]; intros i; simpl; [reflexivity|].
  rewrite filter_app, IH, is_unlinked_unlink.
  destruct (is_unlinked d (i :: e)); simpl.
  - rewrite orb_true_r. reflexivity.
  - rewrite orb_false_r. destruct (ref_eqb (i :: e) item); reflexivity.
Qed.

Lemma getchildren_unlink d e item :
  getchildren (unlink d item) e
  = filter (fun c => negb (ref_eqb c item)) (getchildren d e).
Proof.
  unfold getchildren. simpl.
  destruct (node_at (parsed d) e); [apply over_children_unlink | reflexivity].
Qed.

Lemma filter_all {A} (f : A -> bool) l :
  (forall a, In a l -> f a = true) -> filter f l = l.
Proof.
  induction l as [|a l IH]; intros H; simpl; [reflexivity|].
  rewrite (H a (or_introl eq_refl)), IH; [reflexivity|].
  intros b Hb. apply H. right. exact Hb.
Qed.

(** When the removed [item] is the last child of [p], the tail goes where
    the specification says: behind the tail of the preceding sibling, or
    behind the text of [p] when [item] was the only child. *)
Lemma remove_item_doc_last_child d p item before_item :
  getchildren d p = before_item ++ [item] ->
  truthy (tail d item) = true ->
  remove_item_doc d p item
  = match before_item with
    | [] => set_text (unlink d item) p
              (Some (or_empty (text d p) ++ or_empty (tail d item)))
    | _ :: _ =>
        set_tail (unlink d item) (last before_item [])
          (Some (or_empty (tail d (last before_item []))
                 ++ or_empty (tail d item)))
    end.
Proof.
  intros Hc Ht. unfold remove_item_doc, keep_tail. rewrite Ht.
  rewrite getchildren_unlink, Hc, filter_app. simpl.
  rewrite ref_eqb_refl. simpl. rewrite app_nil_r.
  pose proof (getchildren_NoDup d p) as Hnd. rewrite Hc in Hnd.
  rewrite filter_all.
  - destruct before_item; reflexivity.
  - intros a Ha. apply negb_true_iff, ref_eqb_neq. intros ->.
    apply NoDup_remove_2 in Hnd. rewrite app_nil_r in Hnd. contradiction.
Qed.

(** ** Methods that only read the store *)

Lemma reads_ret {A} (a : A) : reads (ret a) (fun _ => a).
Proof. intros s. reflexivity. Qed.

Lemma reads_read {A} (f : Doc -> A) : reads (read f) f.
Proof. intros s. reflexivity. Qed.

Lemma reads_bind {A B} (m : M A) (k : A -> M B) f g :
  reads m f -> (forall a, reads (k a) (g a)) ->
  reads (bind m k) (fun d => g (f d) d).
Proof. intros Hm Hk s. unfold bind. rewrite Hm. apply Hk. Qed.

Lemma reads_ext {A} (m : M A) f g :
  reads m f -> (forall d, f d = g d) -> reads m g.
Proof. intros H E s. rewrite H, E. reflexivity. Qed.

Lemma reads_foldM {A B} (body : B -> A -> M B) g l :
  (forall acc a, reads (body acc a) (g acc a)) ->
  forall acc, reads (foldM body l acc)
                (fun d => fold_left (fun acc a => g acc a d) l acc).
Proof.
  intros H. induction l as [|a l IH]; intros acc s; simpl.
  - reflexivity.
  - unfold bind. rewrite H. apply IH.
Qed.

Lemma reads_mapM {A B} (f : A -> M B) g l :
  (forall a, reads (f a) (g a)) ->
  reads (mapM f l) (fun d => map (fun a => g a d) l).
Proof.
  intros H. induction l as [|a l IH]; intros s; simpl.
  - reflexivity.
  - unfold bind. rewrite H, IH. reflexivity.
Qed.

Lemma fold_left_snoc {A B} (f : A -> list B) l : forall acc,
  fold_left (fun acc a => acc ++ f a) l acc = acc ++ flat_map f l.
Proof.
  induction l as [|a l IH]; intros acc; simpl.
  - rewrite app_nil_r. reflexivity.
  - rewrite IH, app_assoc. reflexivity.
Qed.

Lemma reads_full_text e : reads (full_text e) (fun d => full_text_of d e).
Proof. intros s. reflexivity. Qed.

(** ** Paragraph grouping *)

(** The loop body of [climb], with [getparent]. *)
Lemma climb_unfold d current_element :
  climb d current_element =
  let eId := get d current_element "eId" in
  if truthy eId then eId
  else match getparent d current_element with
       | Some up => climb d up
       | None => eId
       end.
Proof.
  destruct current_element as [|i up]; simpl.
  - destruct (truthy (get d [] "eId")); reflexivity.
  - destruct (truthy (get d (i :: up) "eId")); [reflexivity|].
    destruct (is_unlinked d (i :: up)); reflexivity.
Qed.

Lemma ancestors_or_self_unfold d e :
  ancestors_or_self d e =
  e :: match getparent d e with
       | Some p => ancestors_or_self d p
       | None => []
       end.
Proof.
  destruct e as [|i up]; simpl; [reflexivity|].
  destruct (is_unlinked d (i :: up)); reflexivity.
Qed.

Lemma climb_nearest d p :
  match nearest_identified d p with
  | Some a => climb d p = get d a "eId" /\ truthy (climb d p) = true
  | None => truthy (climb d p) = false
  end.
Proof.
  unfold nearest_identified, identified.
  induction p as [|i up IH]; simpl.
  - destruct (truthy (get d [] "eId")) eqn:E; auto.
  - destruct (truthy (get d (i :: up) "eId")) eqn:E; [auto|].
    destruct (is_unlinked d (i :: up)); simpl; [exact E | exact IH].
Qed.

Lemma get_text_by_eId_reads node :
  reads (get_text_by_eId node) (fun d => text_by_eId d node).
Proof.
  unfold get_text_by_eId, findall_.
  eapply reads_ext.
  - eapply reads_bind; [apply reads_read|]. intros ps.
    apply reads_foldM with
      (g := fun elements p d =>
              elements ++ match nearest_identified d p with
                          | Some a => [mkElement (or_empty (get d a "eId"))
                                                 (full_text_of d p)]
                          | None => []
                          end).
    intros acc p s. unfold bind, read. simpl.
    pose proof (climb_nearest (doc s) p) as H.
    destruct (nearest_identified (doc s) p) as [a|].
    + destruct H as [H1 H2]. rewrite H2. simpl. rewrite H1. reflexivity.
    + rewrite H. simpl. rewrite app_nil_r. reflexivity.
  - intros d. simpl. rewrite fold_left_snoc. simpl.
    unfold text_by_eId, paragraphs, findall. simpl.
    unfold iterdescendants. rewrite app_nil_r. reflexivity.
Qed.

Lemma in_paragraphs d node p :
  In p (paragraphs d node) <-> beneath d node p /\ tag d p = akn "p".
Proof.
  unfold paragraphs. rewrite filter_In, in_descendants, String.eqb_eq. tauto.
Qed.

Lemma nearest_identified_spec d p a :
  nearest_identified d p = Some a <->
  exists l1 l2, ancestors_or_self d p = l1 ++ a :: l2
                /\ identified d a = true
                /\ forall b, In b l1 -> identified d b = false.
Proof.
  unfold nearest_identified. generalize (ancestors_or_self d p) as l.
  induction l as [|x l IH]; simpl.
  - split; [discriminate|]. intros (l1 & l2 & H & _). destruct l1; discriminate.
  - destruct (identified d x) eqn:E.
    + split.
      * intros [= <-]. exists [], l. simpl. tauto.
      * intros (l1 & l2 & H & Ha & Hb). destruct l1 as [|y l1]; simpl in H.
        -- congruence.
        -- injection H as <- _. rewrite (Hb x) in E by (left; reflexivity).
           discriminate.
    + rewrite IH. split.
      * intros (l1 & l2 & -> & Ha & Hb). exists (x :: l1), l2. simpl.
        repeat split; auto. intros b [<- | Hin]; auto.
      * intros (l1 & l2 & H & Ha & Hb). destruct l1 as [|y l1]; simpl in H.
        -- injection H as -> _. congruence.
        -- injection H as _ ->. exists l1, l2. repeat split; auto.
           intros b Hin. apply Hb. right. exact Hin.
Qed.

(** ** The store after [remove_node] *)

Lemma set_doc_set_doc s d d' : set_doc (set_doc s d) d' = set_doc s d'.
Proof. reflexivity. Qed.

Lemma set_doc_id s : set_doc s (doc s) = s.
Proof. destruct s; reflexivity. Qed.

Lemma for_remove_item_linked (l : list ref) : forall s,
  NoDup l -> (forall a, In a l -> is_unlinked (doc s) a = false /\ a <> []) ->
  for_ l remove_item s = (set_doc s (remove_items (doc s) l), Return tt).
Proof.
  induction l as [|a l IH]; intros s Hnd Hl.
  - unfold remove_items. simpl. rewrite set_doc_id. reflexivity.
  - rewrite for_cons. inversion Hnd as [|? ? Hna Hnd']; subst.
    destruct (Hl a (or_introl eq_refl)) as [Ha Hne].
    destruct a as [|i p]; [congruence|].
    assert (Hp : getparent (doc s) (i :: p) = Some p).
    { simpl. rewrite Ha. reflexivity. }
    rewrite (remove_item_linked (i :: p) p s Hp).
    rewrite IH.
    + rewrite set_doc_set_doc, set_doc_doc. unfold remove_items at 2.
      simpl fold_left. simpl in Hp. rewrite Ha. reflexivity.
    + exact Hnd'.
    + intros b Hb. destruct (Hl b (or_intror Hb)) as [Hb1 Hb2].
      split; [|exact Hb2]. rewrite set_doc_doc.
      unfold remove_item_doc, keep_tail.
      assert (G : is_unlinked (unlink (doc s) (i :: p)) b = false).
      { rewrite is_unlinked_unlink, Hb1, orb_false_r. apply ref_eqb_neq.
        intros ->. contradiction. }
      destruct (truthy (tail (doc s) (i :: p))); [|exact G].
      destruct (getchildren (unlink (doc s) (i :: p)) p); exact G.
Qed.

Lemma remove_node_one tree st s :
  remove_node tree [st] s
  = (set_doc s (stripped (doc s) tree [st]), Return tree).
Proof.
  rewrite remove_node_unfold, for_remove_item_linked.
  - reflexivity.
  - apply findall_one_NoDup.
  - intros a Ha.
    apply (findall_linked (doc s) tree [st]); [discriminate | exact Ha].
Qed.

(** With a selector of one step, such as the parser's
    ['.//akn:authorialNote'], [remove_node] returns, and returns again
    without a change when it is run on the result. *)
Lemma remove_node_twice_one_step tree st s :
  let s' := set_doc s (stripped (doc s) tree [st]) in
  remove_node tree [st] s = (s', Return tree)
  /\ remove_node tree [st] s' = (s', Return tree).
Proof.
  intros s'. pose proof (remove_node_one tree st s) as H. split; [exact H|].
  rewrite remove_node_unfold.
  rewrite (remove_node_leaves_none tree [st] s s' tree);
    [reflexivity | discriminate | exact H].
Qed.

(** ** Chapters *)

Lemma get_chapters_loop (cs : list ref) : forall s acc,
  chapters s = Some acc ->
  for_ cs append_chapter s
  = (with_chapters s (acc ++ map (chapter_of (doc s)) cs), Return tt).
Proof.
  induction cs as [|c cs IH]; intros s acc Hs.
  - simpl. rewrite app_nil_r. destruct s; simpl in *. subst. reflexivity.
  - rewrite for_cons. unfold append_chapter at 1.
    cbv [bind get_ find_ text_ full_text itertext_ read ret self_chapters
         set_chapters].
    destruct (find (doc s) c [Child (akn "num")]) as [n|] eqn:En;
      destruct (find (doc s) c [Child (akn "heading")]) as [h|] eqn:Eh;
      rewrite Hs;
      (rewrite IH with (acc := acc ++ [chapter_of (doc s) c]);
       [ simpl; rewrite <- app_assoc; unfold with_chapters; simpl; reflexivity
       | unfold chapter_of; rewrite En, Eh; reflexivity ]).
Qed.

Lemma get_chapters_run s r :
  root s = Some r ->
  get_chapters s =
  (with_chapters s (map (chapter_of (doc s))
                        (findall (doc s) r [Descendant (akn "chapter")])),
   Return tt).
Proof.
  intros Hr. unfold get_chapters.
  cbv [bind set_chapters self_root findall_ read ret]. simpl root. rewrite Hr.
  simpl doc.
  rewrite get_chapters_loop with (acc := []) by reflexivity. reflexivity.
Qed.

Lemma in_findall_descendant d r t c :
  In c (findall d r [Descendant t]) <-> beneath d r c /\ tag d c = t.
Proof.
  unfold findall. simpl. rewrite app_nil_r. unfold iterdescendants.
  rewrite filter_In, in_descendants, String.eqb_eq. tauto.
Qed.

(** ** Articles *)

Lemma append_article_run s acc a :
  articles s = Some acc ->
  append_article a s
  = (with_articles s (acc ++ [article_of (doc s) a]), Return tt).
Proof.
  intros Hs. unfold append_article, article_of, article_title_of.
  cbv [bind get_ find_ findall_ text_ read ret self_articles set_articles].
  destruct (find (doc s) a [Child (akn "num")]) as [n|];
    destruct (find (doc s) a [Child (akn "heading")]) as [h|];
    cbv beta iota;
    try (destruct (findall (doc s) a [Child (akn "num")]) as [|n1 [|n2 l]];
         cbn [Nat.ltb Nat.leb Datatypes.length nth_error]; cbv beta iota);
    rewrite (get_text_by_eId_reads a s), Hs; reflexivity.
Qed.

Lemma get_articles_loop (l : list ref) : forall s acc,
  articles s = Some acc ->
  for_ l append_article s
  = (with_articles s (acc ++ map (article_of (doc s)) l), Return tt).
Proof.
  induction l as [|a l IH]; intros s acc Hs.
  - simpl. rewrite app_nil_r. destruct s; simpl in *. subst. reflexivity.
  - rewrite for_cons, (append_article_run s acc a Hs).
    rewrite IH with (acc := acc ++ [article_of (doc s) a]) by reflexivity.
    simpl. rewrite <- app_assoc. reflexivity.
Qed.

Lemma get_articles_run s b :
  body s = Some (Some b) ->
  get_articles s =
  (after_get_articles s b,
   Return (map (article_of (doc (after_get_articles s b)))
               (findall (doc (after_get_articles s b)) b
                        [Descendant (akn "article")]))).
Proof.
  intros Hb. unfold get_articles.
  cbv [bind set_articles self_body deref ret]. simpl body. rewrite Hb.
  rewrite remove_node_one.
  cbv [set_body findall_ read]. simpl doc.
  rewrite get_articles_loop with (acc := []) by reflexivity.
  reflexivity.
Qed.

Lemma eval_eq {A} (m : M A) s s' o : m s = (s', o) -> eval m s = o.
Proof. unfold eval. intros ->. reflexivity. Qed.

Lemma exec_eq {A} (m : M A) s s' o : m s = (s', o) -> exec m s = s'.
Proof. unfold exec. intros ->. reflexivity. Qed.

(** ** Absent sections *)

Lemma node_at_mentions t x : forall e y,
  node_at x e = Some y -> mentions t y = true -> mentions t x = true.
Proof.
  induction e as [|i p IH]; intros y E H; simpl in E.
  - injection E as ->. exact H.
  - destruct (node_at x p) as [z|] eqn:Ez; [|discriminate].
    apply (IH z eq_refl). destruct z as [tz az txz cs tlz]. simpl in *.
    apply orb_true_iff. right. apply existsb_exists. exists y.
    split; [eapply nth_error_In; eauto | exact H].
Qed.

Lemma mentions_tag d e t :
  valid d e -> tag d e = t -> mentions t (parsed d) = true.
Proof.
  unfold valid, tag. intros Hv Ht.
  destruct (node_at (parsed d) e) as [y|] eqn:E; [|congruence].
  apply (node_at_mentions t (parsed d) e y E).
  destruct y; simpl in *. subst. rewrite String.eqb_refl. reflexivity.
Qed.

Lemma select_tag d st res e :
  In e (select d st res) -> valid d e /\ tag d e = step_tag st.
Proof.
  destruct st as [t|t]; simpl; rewrite in_flat_map; intros (x & _ & H).
  - unfold iterchildren in H. apply filter_In in H. destruct H as [H Ht].
    apply String.eqb_eq in Ht. apply in_getchildren in H.
    destruct H as (i & -> & Hv & _). auto.
  - unfold iterdescendants in H. apply filter_In in H. destruct H as [H Ht].
    apply String.eqb_eq in Ht. apply in_descendants, beneath_linked in H. tauto.
Qed.

Lemma findall_absent d r p st :
  mentions (step_tag st) (parsed d) = false -> findall d r (p ++ [st]) = [].
Proof.
  intros H. rewrite findall_app. simpl.
  destruct (select d st (findall d r p)) as [|e l] eqn:E; [reflexivity|].
  destruct (select_tag d st (findall d r p) e) as [Hv Ht].
  { rewrite E. left. reflexivity. }
  rewrite (mentions_tag d e _ Hv Ht) in H. discriminate.
Qed.

Lemma find_absent d r p st :
  mentions (step_tag st) (parsed d) = false -> find d r (p ++ [st]) = None.
Proof.
  intros H. unfold find. rewrite findall_absent by exact H. reflexivity.
Qed.

(** ** Metadata *)

Lemma find_get_run parent t key s :
  find_get parent t key s =
  (s, if has_child (doc s) parent t
      then Return (child_attr (doc s) parent t key)
      else Raise AttributeError).
Proof.
  unfold find_get, has_child, child_attr. cbv [bind find_ read deref get_].
  destruct (find (doc s) parent [Child t]); reflexivity.
Qed.

Lemma find_text_run parent t s :
  find_text parent t s =
  (s, if has_child (doc s) parent t
      then Return (child_text (doc s) parent t)
      else Raise AttributeError).
Proof.
  unfold find_text, has_child, child_text. cbv [bind find_ read deref text_].
  destruct (find (doc s) parent [Child t]); reflexivity.
Qed.

Ltac run_fields :=
  repeat (rewrite ?find_get_run, ?find_text_run;
          match goal with
          | |- context [has_child ?d ?p ?t] =>
              destruct (has_child d p t); cbn [andb]; cbv beta iota
          end);
  try reflexivity.

(** ** Recitals *)

Lemma flat_map_single {A B} (f : A -> B) l :
  flat_map (fun a => [f a]) l = map f l.
Proof. induction l as [|a l IH]; simpl; [|rewrite IH]; reflexivity. Qed.

Lemma direct_paragraph_text_reads e :
  reads (direct_paragraph_text e) (fun d => direct_text_of d e).
Proof.
  intros s. unfold direct_paragraph_text, direct_text_of.
  unfold bind at 1. unfold findall_, read. unfold bind at 1.
  rewrite reads_foldM with
    (g := fun parts p d =>
            parts ++ (if truthy (text d p)
                      then [strip (or_empty (text d p))] else [])).
  - rewrite fold_left_snoc. reflexivity.
  - intros acc p s0. unfold bind, text_, read.
    destruct (truthy (text (doc s0) p)); [reflexivity|].
    rewrite app_nil_r. reflexivity.
Qed.

Lemma recital_text_of_reads rc :
  reads (recital_text_of rc) (fun d => recital_text_in d rc).
Proof.
  intros s. unfold recital_text_of, recital_text_in.
  unfold bind at 1. unfold findall_, read. unfold bind at 1.
  rewrite reads_mapM with
    (g := fun p d => strip (join (lit " ") (itertext d p))).
  - reflexivity.
  - intros p s0. reflexivity.
Qed.

Lemma sub_ws_collapsed s : forall b,
  collapsed (sub_ws b s)
  /\ (b = true -> match sub_ws b s with
                  | c :: _ => isspace c = false
                  | [] => True
                  end).
Proof.
  induction s as [|c s IH]; intros b; simpl.
  - auto.
  - destruct (isspace c) eqn:E.
    + destruct (IH true) as [H1 H2]. specialize (H2 eq_refl).
      destruct b.
      * split; [exact H1 | intros _; exact H2].
      * split; [|discriminate]. simpl. split; [|exact H1].
        intros _. split; [reflexivity | exact H2].
    + destruct (IH false) as [H1 _]. split.
      * simpl. split; [|exact H1]. rewrite E. discriminate.
      * intros _. exact E.
Qed.

Lemma re_sub_ws_collapsed s : collapsed (re_sub_ws s).
Proof. apply sub_ws_collapsed. Qed.

Lemma sub_ws_words s : forall b,
  filter (fun c => negb (isspace c)) (sub_ws b s)
  = filter (fun c => negb (isspace c)) s.
Proof.
  induction s as [|c s IH]; intros b; simpl; [reflexivity|].
  destruct (isspace c) eqn:E; simpl.
  - destruct b; simpl; rewrite IH; reflexivity.
  - rewrite E. simpl. rewrite IH. reflexivity.
Qed.

(** ** Methods that ignore the located body *)

Lemma ign_ret {A} (x : A) : ignores_locators (ret x).
Proof. intros s a b. reflexivity. Qed.

Lemma ign_raise {A} e : ignores_locators (@raise A e).
Proof. intros s a b. reflexivity. Qed.

Lemma ign_read {A} (f : Doc -> A) : ignores_locators (read f).
Proof. intros s a b. reflexivity. Qed.

Lemma ign_write f : ignores_locators (write f).
Proof. intros s a b. reflexivity. Qed.

Lemma ign_self_root : ignores_locators self_root.
Proof.
  intros s a b. unfold self_root. simpl. destruct (root s); reflexivity.
Qed.

Lemma ign_self_chapters : ignores_locators self_chapters.
Proof.
  intros s a b. unfold self_chapters. simpl. destruct (chapters s); reflexivity.
Qed.

Lemma ign_set_chapters v : ignores_locators (set_chapters v).
Proof. intros s a b. reflexivity. Qed.

Lemma ign_deref o : ignores_locators (deref o).
Proof. destruct o; intros s a b; reflexivity. Qed.

Lemma ign_remove_ p e : ignores_locators (remove_ p e).
Proof.
  intros s a b. unfold remove_. simpl.
  destruct (remove (doc s) p e); reflexivity.
Qed.

Lemma ign_bind {A B} (m : M A) (k : A -> M B) :
  ignores_locators m -> (forall x, ignores_locators (k x)) ->
  ignores_locators (bind m k).
Proof.
  intros Hm Hk s a b. unfold bind. rewrite Hm.
  destruct (m s) as [s1 [x|e]]; simpl; [apply Hk | reflexivity].
Qed.

Lemma ign_foldM {A B} (f : B -> A -> M B) l :
  (forall acc x, ignores_locators (f acc x)) ->
  forall acc, ignores_locators (foldM f l acc).
Proof.
  intros H. induction l as [|x l IH]; intros acc; simpl.
  - apply ign_ret.
  - apply ign_bind; [apply H | intros y; apply IH].
Qed.

Lemma ign_for {A} (l : list A) body :
  (forall x, ignores_locators (body x)) -> ignores_locators (for_ l body).
Proof. intros H. apply ign_foldM. intros _ x. apply H. Qed.

Lemma ign_mapM {A B} (f : A -> M B) l :
  (forall x, ignores_locators (f x)) -> ignores_locators (mapM f l).
Proof.
  intros H. induction l as [|x l IH]; simpl.
  - apply ign_ret.
  - apply ign_bind; [apply H | intros y].
    apply ign_bind; [apply IH | intros ys; apply ign_ret].
Qed.

Lemma ign_find_ e p : ignores_locators (find_ e p).
Proof. apply ign_read. Qed.
Lemma ign_findall_ e p : ignores_locators (findall_ e p).
Proof. apply ign_read. Qed.
Lemma ign_get_ e k : ignores_locators (get_ e k).
Proof. apply ign_read. Qed.
Lemma ign_text_ e : ignores_locators (text_ e).
Proof. apply ign_read. Qed.
Lemma ign_tail_ e : ignores_locators (tail_ e).
Proof. apply ign_read. Qed.
Lemma ign_itertext_ e : ignores_locators (itertext_ e).
Proof. apply ign_read. Qed.
Lemma ign_getparent_ e : ignores_locators (getparent_ e).
Proof. apply ign_read. Qed.
Lemma ign_getchildren_ e : ignores_locators (getchildren_ e).
Proof. apply ign_read. Qed.
Lemma ign_set_text_ e v : ignores_locators (set_text_ e v).
Proof. apply ign_write. Qed.
Lemma ign_set_tail_ e v : ignores_locators (set_tail_ e v).
Proof. apply ign_write. Qed.

Create HintDb ign.
#[local] Hint Resolve ign_ret ign_raise ign_read ign_write ign_self_root
  ign_self_chapters ign_set_chapters ign_deref ign_remove_
  ign_find_ ign_findall_ ign_get_ ign_text_ ign_tail_ ign_itertext_
  ign_getparent_ ign_getchildren_ ign_set_text_ ign_set_tail_ : ign.

Ltac ign :=
  repeat first
    [ solve [auto with ign]
    | apply ign_bind; [|intros ?]
    | apply ign_foldM; intros ? ?
    | apply ign_for; intros ?
    | apply ign_mapM; intros ?
    | match goal with
      | |- ignores_locators (match ?x with _ => _ end) => destruct x
      end
    | progress cbv zeta ].

Lemma ign_remove_item item : ignores_locators (remove_item item).
Proof. unfold remove_item. ign. Qed.

#[local] Hint Resolve ign_remove_item : ign.

Lemma ign_remove_node tree node : ignores_locators (remove_node tree node).
Proof. unfold remove_node. ign. Qed.

Lemma ign_find_get p t k : ignores_locators (find_get p t k).
Proof. unfold find_get. ign. Qed.

Lemma ign_find_text p t : ignores_locators (find_text p t).
Proof. unfold find_text. ign. Qed.

Lemma ign_full_text e : ignores_locators (full_text e).
Proof. unfold full_text. ign. Qed.

Lemma ign_direct_paragraph_text e : ignores_locators (direct_paragraph_text e).
Proof. unfold direct_paragraph_text. ign. Qed.

Lemma ign_recital_text_of e : ignores_locators (recital_text_of e).
Proof. unfold recital_text_of. ign. Qed.

#[local] Hint Resolve ign_remove_node ign_find_get ign_find_text ign_full_text
  ign_direct_paragraph_text ign_recital_text_of : ign.

Lemma ign_get_meta_identification : ignores_locators get_meta_identification.
Proof.
  unfold get_meta_identification, _get_frbr_work, _get_frbr_expression,
    _get_frbr_manifestation. ign.
Qed.

Lemma ign_get_meta_references : ignores_locators get_meta_references.
Proof. unfold get_meta_references. ign. Qed.

Lemma ign_get_meta_proprietary : ignores_locators get_meta_proprietary.
Proof. unfold get_meta_proprietary. ign. Qed.

Lemma ign_get_preface : ignores_locators get_preface.
Proof. unfold get_preface. ign. Qed.

Lemma ign_get_preamble_formula : ignores_locators get_preamble_formula.
Proof. unfold get_preamble_formula. ign. Qed.

Lemma ign_get_preamble_citations : ignores_locators get_preamble_citations.
Proof. unfold get_preamble_citations. ign. Qed.

Lemma ign_get_preamble_recitals : ignores_locators get_preamble_recitals.
Proof. unfold get_preamble_recitals. ign. Qed.

#[local] Hint Resolve ign_get_preamble_formula ign_get_preamble_citations
  ign_get_preamble_recitals : ign.

Lemma ign_get_preamble : ignores_locators get_preamble.
Proof. unfold get_preamble. ign. Qed.

Lemma ign_get_chapters : ignores_locators get_chapters.
Proof. unfold get_chapters, append_chapter. ign. Qed.

Lemma get_articles_unlocated s :
  body s = None \/ body s = Some None ->
  get_articles s = (with_articles s [], Raise AttributeError).
Proof.
  intros [H | H]; unfold get_articles;
    cbv [bind set_articles self_body deref raise]; simpl body; rewrite H;
    reflexivity.
Qed.

Lemma get_body_run s r :
  root s = Some r ->
  get_body s =
  (with_body s (match find (doc s) r [Descendant (akn "body")] with
                | Some b => Some b
                | None => find (doc s) r [Descendant "body"]
                end),
   Return tt).
Proof.
  intros Hr. unfold get_body. cbv [bind self_root find_ read set_body ret].
  rewrite Hr. simpl.
  destruct (find (doc s) r [Descendant (akn "body")]); reflexivity.
Qed.

(** ** Chapters before and after the articles *)

Lemma doc_chapter_runs :
  get_chapters (loaded doc_chapter)
  = (with_chapters (loaded doc_chapter)
       [mkChapter (Some (lit "chp_1")) (Some (lit "I"))
                  (Some (lit "Generaln provisions"))],
     Return tt)
  /\ chapters (exec (get_body ;; get_articles ;; get_chapters)
                    (loaded doc_chapter))
     = Some [mkChapter (Some (lit "chp_1")) (Some (lit "I"))
                       (Some (lit "General provisions"))].
Proof. split; reflexivity. Qed.

(* ================================================================== *)
(** * The specification's claims *)
(* ================================================================== *)

(** ** Paragraph grouping *)

(** The example of the specification: two paragraphs under the element
    identified [1], one under the element identified [2], and one with no
    identified ancestor, which is dropped.  Called on a subtree, the walk
    finds the identifier above the subtree. *)
Example get_text_by_eId_document_order :
  eval (get_text_by_eId []) (loaded doc_paragraphs)
  = Return [mkElement (lit "1") (lit "p1"); mkElement (lit "1") (lit "p2");
            mkElement (lit "2") (lit "p3!")]
  /\ eval (get_text_by_eId [1; 1]) (loaded doc_paragraphs)
     = Return [mkElement (lit "1") (lit "p2")].
Proof. split; reflexivity. Qed.

(** C1.  [get_text_by_eId] leaves the parser as it is and returns
    [text_by_eId]: going through the paragraphs linked anywhere beneath
    [node], it gives one entry for each paragraph that has an
    ancestor-or-self with a non-empty [eId] (the walk with [getparent] goes
    up to the root, past [node]), made of the [eId] of the nearest such
    element and the paragraph's full descendant text, trimmed; a paragraph
    without one gives no entry, and entries are never merged.  The
    paragraphs gone through are exactly the [p] elements beneath [node],
    in document order. *)
Theorem get_text_by_eId_spec s node :
  get_text_by_eId node s = (s, Return (text_by_eId (doc s) node))
  /\ (forall p, In p (paragraphs (doc s) node) <->
                beneath (doc s) node p /\ tag (doc s) p = akn "p")
  /\ StronglySorted before (paragraphs (doc s) node).
Proof.
  split; [apply get_text_by_eId_reads|].
  split; [intros p; apply in_paragraphs|].
  apply StronglySorted_filter, descendants_sorted.
Qed.

(** ** Annotation stripping *)

(** The example of the specification, where the removed note is the last
    child: its tail joins the parent's text, spaces included. *)
Example remove_node_keeps_tail_of_last_child :
  snapshot (after_strip doc_note_last) []
  = Some (Element (akn "p") [] (Some (lit "foo  bar")) [] None)
  /\ join [] (itertext (after_strip doc_note_last) []) = lit "foo  bar".
Proof. split; reflexivity. Qed.

(** C2, where the code departs from it.  [remove_item] appends the tail of
    the removed element to the tail of the last child that remains
    ([remove_item_linked], [keep_tail]), which is the preceding sibling
    only when the removed element was the last child
    ([remove_item_doc_last_child]: there the tail goes where the
    specification says).
    - In [<p>foo <authorialNote>X</authorialNote> bar <b>baz</b> qux</p>]
      the note has no preceding sibling, yet the parent's text stays
      ["foo "] and the tail [" bar "] lands behind [" qux"]: the text
      reads ["foo baz qux bar "].
    - In [<p><i>a</i> b <authorialNote>X</authorialNote> c <b>d</b> e</p>]
      the note has the preceding sibling [i], yet the tail of [i] stays
      [" b "] and [" c "] lands behind [" e"]. *)
Theorem remove_node_tail_after_following_sibling :
  (text (after_strip doc_note_then_sibling) [] = Some (lit "foo ")
   /\ tail (after_strip doc_note_then_sibling) [1] = Some (lit " qux bar ")
   /\ join [] (itertext (after_strip doc_note_then_sibling) [])
      = lit "foo baz qux bar ")
  /\ (tail (after_strip doc_note_between) [0] = Some (lit " b ")
      /\ tail (after_strip doc_note_between) [2] = Some (lit " e c ")
      /\ join [] (itertext (after_strip doc_note_between) [])
         = lit "a b d e c ").
Proof. repeat split; reflexivity. Qed.

(** C3 fails for the selector ['.'], which selects the subtree itself.
    On the note of
    [<p>foo <authorialNote>X</authorialNote> bar <b>baz</b> qux</p>] the
    first [remove_node(note, '.')] returns, having taken the note out of
    its parent; the second finds the note with its tail and without a
    parent, and raises [AttributeError] at [parent.getchildren()] instead
    of returning the subtree unchanged. *)
Lemma remove_node_self_selector_raises_again :
  let s := loaded doc_note_then_sibling in
  let s' := exec (remove_node [0] []) s in
  eval (remove_node [0] []) s = Return [0]
  /\ is_unlinked (doc s') [0] = true
  /\ tail (doc s') [0] = Some (lit " bar ")
  /\ remove_node [0] [] s' = (s', Raise AttributeError).
Proof. repeat split; reflexivity. Qed.

(** C3, amended.  Annotation stripping is idempotent for the selectors
    that select beneath the subtree: when [remove_node] has returned,
    with a selector of at least one child or descendant tag step,
    running it again on the result returns too and changes nothing: no
    element is unlinked, no text or tail is assigned.
    ([remove_node_twice_one_step]: with a one-step selector, such as the
    parser's ['.//akn:authorialNote'], the first run always returns.) *)
Theorem remove_node_idempotent tree node s s' r :
  node <> [] ->
  remove_node tree node s = (s', Return r) ->
  remove_node tree node s' = (s', Return tree).
Proof.
  intros Hn H. rewrite remove_node_unfold.
  rewrite (remove_node_leaves_none _ _ _ _ _ Hn H). reflexivity.
Qed.

Lemma remove_node_idempotent_witness :
  note <> []
  /\ remove_node [] note (loaded doc_note_then_sibling)
     = (exec (remove_node [] note) (loaded doc_note_then_sibling), Return [])
  /\ remove_node [] note
       (exec (remove_node [] note) (loaded doc_note_then_sibling))
     = (exec (remove_node [] note) (loaded doc_note_then_sibling), Return []).
Proof.
  assert (H1 : note <> []) by discriminate.
  assert (H2 : remove_node [] note (loaded doc_note_then_sibling)
               = (exec (remove_node [] note) (loaded doc_note_then_sibling),
                  Return [])) by reflexivity.
  split; [exact H1|]. split; [exact H2|].
  exact (remove_node_idempotent [] note (loaded doc_note_then_sibling) _ []
           H1 H2).
Defined.

(** ** Metadata *)

(** C4 fails for a missing attribute: [FRBRthis] is there without its
    [value], and [get_meta_identification] returns the record with [None]
    in that field; and for a missing [DOCUMENT.REF] inside a present
    [proprietary]: [get_meta_proprietary] returns [None]. *)
Lemma missing_attribute_is_null :
  eval get_meta_identification (loaded doc_work_without_value)
  = Return (Some (mkFrbr
      (Some (mkWork None
                    (Some (lit "/akn/eu/act/2024/1"))
                    (Some (lit "alias"))
                    (Some (lit "2024-01-01"))
                    (Some (lit "#council"))
                    (Some (lit "eu"))
                    (Some (lit "1"))))
      None None))
  /\ eval get_meta_proprietary (loaded doc_work_without_value) = Return None.
Proof. split; reflexivity. Qed.

(** C4, amended.  When the parent element is present, a metadata
    extractor raises [AttributeError] exactly when one of the child
    elements it reads is missing; otherwise it returns the record, in
    which a field is [None] when the attribute (or the text) of the child
    is missing.  [get_meta_proprietary] returns [None] when
    [DOCUMENT.REF] is missing, and [get_meta_references], which reads
    attributes only, never raises.  The parser is left as it is. *)
Theorem metadata_missing_parts s :
  (forall identification w,
      find (doc s) identification [Child (akn "FRBRWork")] = Some w ->
      _get_frbr_work identification s =
      (s, if forallb (has_child (doc s) w) work_children
          then Return (Some (work_of (doc s) w))
          else Raise AttributeError))
  /\ (forall identification e,
      find (doc s) identification [Child (akn "FRBRExpression")] = Some e ->
      _get_frbr_expression identification s =
      (s, if forallb (has_child (doc s) e) expression_children
          then Return (Some (expression_of (doc s) e))
          else Raise AttributeError))
  /\ (forall identification m,
      find (doc s) identification [Child (akn "FRBRManifestation")] = Some m ->
      _get_frbr_manifestation identification s =
      (s, if forallb (has_child (doc s) m) manifestation_children
          then Return (Some (manifestation_of (doc s) m))
          else Raise AttributeError))
  /\ (forall r pr,
      root s = Some r ->
      find (doc s) r [Descendant (akn "meta"); Child (akn "proprietary")]
      = Some pr ->
      get_meta_proprietary s =
      (s, match find (doc s) pr [Child (fmx "DOCUMENT.REF")] with
          | None => Return None
          | Some dr =>
              if has_child (doc s) dr (fmx "COLL")
                 && has_child (doc s) dr (fmx "YEAR")
                 && has_child (doc s) pr (fmx "LG.DOC")
                 && has_child (doc s) pr (fmx "NO.SEQ")
              then Return (Some (proprietary_of (doc s) pr dr))
              else Raise AttributeError
          end))
  /\ (forall r org,
      root s = Some r ->
      find (doc s) r [Descendant (akn "meta"); Child (akn "references");
                      Child (akn "TLCOrganization")] = Some org ->
      get_meta_references s =
      (s, Return (Some (mkReferences (get (doc s) org "eId")
                                     (get (doc s) org "href")
                                     (get (doc s) org "showAs"))))).
Proof.
  repeat split.
  - intros ident w Hw. unfold _get_frbr_work, work_of, work_children.
    cbn [forallb]. unfold bind at 1. cbv [find_ read]. rewrite Hw.
    unfold bind, ret. run_fields.
  - intros ident e He. unfold _get_frbr_expression, expression_of,
      expression_children.
    cbn [forallb]. unfold bind at 1. cbv [find_ read]. rewrite He.
    unfold bind, ret. run_fields.
  - intros ident m Hm. unfold _get_frbr_manifestation, manifestation_of,
      manifestation_children.
    cbn [forallb]. unfold bind at 1. cbv [find_ read]. rewrite Hm.
    unfold bind, ret. run_fields.
  - intros r pr Hr Hp. unfold get_meta_proprietary, proprietary_of.
    unfold bind at 1. unfold self_root. rewrite Hr.
    unfold bind at 1. cbv [find_ read]. rewrite Hp.
    unfold bind at 1.
    destruct (find (doc s) pr [Child (fmx "DOCUMENT.REF")]) as [dr|];
      [|reflexivity].
    unfold bind, ret, get_, read. run_fields.
  - intros r org Hr Ho. unfold get_meta_references.
    cbv [bind self_root find_ get_ read ret]. rewrite Hr, Ho. reflexivity.
Qed.

Lemma metadata_missing_parts_witness :
  find (doc (loaded doc_meta)) [0; 0; 0] [Child (akn "FRBRWork")]
  = Some [0; 0; 0; 0]
  /\ _get_frbr_work [0; 0; 0] (loaded doc_meta)
     = (loaded doc_meta,
        Return (Some (work_of (doc (loaded doc_meta)) [0; 0; 0; 0])))
  /\ root (loaded doc_meta) = Some []
  /\ find (doc (loaded doc_meta)) []
       [Descendant (akn "meta"); Child (akn "proprietary")] = Some [1; 0; 0]
  /\ get_meta_proprietary (loaded doc_meta)
     = (loaded doc_meta,
        Return (Some (mkProprietary (Some (lit "L_2024001EN.xml"))
                        (Some (lit "L")) (Some (lit "2024"))
                        (Some (lit "EN")) (Some (lit "0001"))))).
Proof.
  assert (H1 : find (doc (loaded doc_meta)) [0; 0; 0] [Child (akn "FRBRWork")]
               = Some [0; 0; 0; 0]) by reflexivity.
  assert (H2 : root (loaded doc_meta) = Some []) by reflexivity.
  assert (H3 : find (doc (loaded doc_meta)) []
                 [Descendant (akn "meta"); Child (akn "proprietary")]
               = Some [1; 0; 0]) by reflexivity.
  destruct (metadata_missing_parts (loaded doc_meta)) as (W & _ & _ & P & _).
  split; [exact H1|]. split; [exact (W _ _ H1)|].
  split; [exact H2|]. split; [exact H3|]. exact (P _ _ H2 H3).
Defined.

(** ** Recitals *)

(** C5 fails on inline markup: the paragraph [<p>foo<b>bar</b></p>] of a
    recital has the full descendant text ["foobar"], and the recital's
    entry reads ["foo bar"]. *)
Lemma recital_text_inserts_spaces :
  eval get_preamble_recitals (loaded doc_recitals)
  = Return (Some [mkRecital (lit "Whereas:") (Some (lit "rec_intro"));
                  mkRecital (lit "foo bar") (Some (lit "rec_1"))])
  /\ recital_text_as_stated
       (doc (exec get_preamble_recitals (loaded doc_recitals))) [1; 0; 0]
     = lit "foobar"
  /\ lit "foo bar" <> lit "foobar".
Proof. repeat split; try reflexivity. discriminate. Qed.

(** C5, amended.  With a recitals section that has an intro,
    [get_preamble_recitals] returns the intro entry first: the intro's
    [eId] and the trimmed direct text of its [p] children that have
    direct text, joined by single spaces, read before anything is
    stripped.  It then strips the [authorialNote] elements from the
    section and returns, after the intro entry, one entry per recital of
    the stripped section: the text fragments beneath each of its [p]
    children joined by single spaces and trimmed, the paragraphs joined
    by single spaces, and every whitespace run collapsed to one space. *)
Theorem get_preamble_recitals_spec s r section intro :
  root s = Some r ->
  find (doc s) r [Descendant (akn "preamble"); Child (akn "recitals")]
  = Some section ->
  find (doc s) section [Child (akn "intro")] = Some intro ->
  let d := doc s in
  let d' := stripped d section [Descendant (akn "authorialNote")] in
  get_preamble_recitals s =
  (set_doc s d',
   Return (Some (mkRecital (direct_text_of d intro) (get d intro "eId")
                 :: map (recital_of d')
                        (findall d' section [Child (akn "recital")]))))
  /\ forall rc, collapsed (recital_text (recital_of d' rc)).
Proof.
  intros Hr Hs Hi d d'. split.
  - unfold get_preamble_recitals.
    unfold bind at 1. unfold self_root. rewrite Hr.
    unfold bind at 1. cbv [find_ read]. rewrite Hs.
    unfold bind at 1. rewrite Hi.
    unfold bind at 1. unfold deref, ret.
    unfold bind at 1. unfold get_, read.
    unfold bind at 1. rewrite (direct_paragraph_text_reads intro s).
    unfold bind at 1. rewrite remove_node_one.
    unfold bind at 1. unfold findall_, read. rewrite set_doc_doc.
    fold d d'. unfold bind at 1.
    pose proof (reads_foldM
      (fun recitals_text recital =>
         e <- get_ recital "eId" ;;
         let eId := str_of e in
         recital_text <- recital_text_of recital ;;
         ret (recitals_text ++ [mkRecital recital_text (Some eId)]))
      (fun acc rc d => acc ++ [recital_of d rc])
      (findall d' section [Child (akn "recital")])) as H.
    rewrite H.
    + rewrite set_doc_doc, fold_left_snoc, flat_map_single. reflexivity.
    + intros acc rc s0. unfold bind, get_, read.
      rewrite (recital_text_of_reads rc s0). reflexivity.
  - intros rc. apply re_sub_ws_collapsed.
Qed.

Lemma get_preamble_recitals_spec_witness :
  root (loaded doc_recitals) = Some []
  /\ find (doc (loaded doc_recitals)) []
       [Descendant (akn "preamble"); Child (akn "recitals")] = Some [0; 0]
  /\ find (doc (loaded doc_recitals)) [0; 0] [Child (akn "intro")]
     = Some [0; 0; 0]
  /\ eval get_preamble_recitals (loaded doc_recitals)
     = Return (Some [mkRecital (lit "Whereas:") (Some (lit "rec_intro"));
                     mkRecital (lit "foo bar") (Some (lit "rec_1"))]).
Proof.
  assert (H1 : root (loaded doc_recitals) = Some []) by reflexivity.
  assert (H2 : find (doc (loaded doc_recitals)) []
                 [Descendant (akn "preamble"); Child (akn "recitals")]
               = Some [0; 0]) by reflexivity.
  assert (H3 : find (doc (loaded doc_recitals)) [0; 0] [Child (akn "intro")]
               = Some [0; 0; 0]) by reflexivity.
  split; [exact H1|]. split; [exact H2|]. split; [exact H3|].
  destruct (get_preamble_recitals_spec (loaded doc_recitals) [] [0; 0]
              [0; 0; 0] H1 H2 H3) as [E _].
  unfold eval. rewrite E. reflexivity.
Defined.

(** C10.  With a recitals section that has no intro child,
    [get_preamble_recitals] raises [AttributeError] (the [get] on the
    missing intro); it returns neither [None] nor a list without the
    intro entry, and has changed nothing when it raises. *)
Theorem recitals_without_intro_raises s r recitals_section :
  root s = Some r ->
  find (doc s) r [Descendant (akn "preamble"); Child (akn "recitals")]
  = Some recitals_section ->
  find (doc s) recitals_section [Child (akn "intro")] = None ->
  get_preamble_recitals s = (s, Raise AttributeError).
Proof.
  intros Hr Hs Hi. unfold get_preamble_recitals.
  cbv [bind self_root find_ read]. rewrite Hr, Hs. cbv beta iota.
  rewrite Hi. reflexivity.
Qed.

Lemma recitals_without_intro_raises_witness :
  root (loaded doc_recitals_without_intro) = Some []
  /\ find (doc (loaded doc_recitals_without_intro)) []
       [Descendant (akn "preamble"); Child (akn "recitals")] = Some [0; 0]
  /\ find (doc (loaded doc_recitals_without_intro)) [0; 0]
       [Child (akn "intro")] = None
  /\ get_preamble_recitals (loaded doc_recitals_without_intro)
     = (loaded doc_recitals_without_intro, Raise AttributeError).
Proof.
  assert (H1 : root (loaded doc_recitals_without_intro) = Some [])
    by reflexivity.
  assert (H2 : find (doc (loaded doc_recitals_without_intro)) []
                 [Descendant (akn "preamble"); Child (akn "recitals")]
               = Some [0; 0]) by reflexivity.
  assert (H3 : find (doc (loaded doc_recitals_without_intro)) [0; 0]
                 [Child (akn "intro")] = None) by reflexivity.
  split; [exact H1|]. split; [exact H2|]. split; [exact H3|].
  exact (recitals_without_intro_raises _ _ _ H1 H2 H3).
Defined.

(** ** Absent sections *)

(** C7.  When the document has no [preface] element, [get_preface]
    returns [None] (not an empty list) and changes nothing; likewise
    [get_preamble_citations] without a [citations] element and
    [get_preamble_recitals] without a [recitals] element. *)
Theorem absent_section_returns_None s r :
  root s = Some r ->
  (mentions (akn "preface") (parsed (doc s)) = false ->
   get_preface s = (s, Return None))
  /\ (mentions (akn "citations") (parsed (doc s)) = false ->
      get_preamble_citations s = (s, Return None))
  /\ (mentions (akn "recitals") (parsed (doc s)) = false ->
      get_preamble_recitals s = (s, Return None)).
Proof.
  intros Hr. repeat split; intros H.
  - unfold get_preface. cbv [bind self_root find_ read]. rewrite Hr.
    pose proof (find_absent (doc s) r [] (Descendant (akn "preface")) H) as E.
    cbn [app] in E. rewrite E. reflexivity.
  - unfold get_preamble_citations. cbv [bind self_root find_ read]. rewrite Hr.
    pose proof (find_absent (doc s) r [Descendant (akn "preamble")]
                  (Child (akn "citations")) H) as E.
    cbn [app] in E. rewrite E. reflexivity.
  - unfold get_preamble_recitals. cbv [bind self_root find_ read]. rewrite Hr.
    pose proof (find_absent (doc s) r [Descendant (akn "preamble")]
                  (Child (akn "recitals")) H) as E.
    cbn [app] in E. rewrite E. reflexivity.
Qed.

Lemma absent_section_returns_None_witness :
  root (loaded doc_chapter) = Some []
  /\ mentions (akn "preface") (parsed (doc (loaded doc_chapter))) = false
  /\ mentions (akn "citations") (parsed (doc (loaded doc_chapter))) = false
  /\ mentions (akn "recitals") (parsed (doc (loaded doc_chapter))) = false
  /\ get_preface (loaded doc_chapter) = (loaded doc_chapter, Return None)
  /\ get_preamble_citations (loaded doc_chapter)
     = (loaded doc_chapter, Return None)
  /\ get_preamble_recitals (loaded doc_chapter)
     = (loaded doc_chapter, Return None).
Proof.
  assert (H : root (loaded doc_chapter) = Some []) by reflexivity.
  assert (H1 : mentions (akn "preface") (parsed (doc (loaded doc_chapter)))
               = false) by reflexivity.
  assert (H2 : mentions (akn "citations") (parsed (doc (loaded doc_chapter)))
               = false) by reflexivity.
  assert (H3 : mentions (akn "recitals") (parsed (doc (loaded doc_chapter)))
               = false) by reflexivity.
  destruct (absent_section_returns_None (loaded doc_chapter) [] H)
    as (A & B & C).
  repeat split; auto.
Defined.

(** ** Chapters and articles *)



(** C8.  [get_articles], once the body is located, returns one record per
    [article] element of the stripped body, and the title in the record
    is: the direct text of the (first) [heading] child when there is one;
    without a heading child and with more than one [num] child, the direct
    text of the second [num] child; otherwise [None]. *)
Theorem article_title_spec s b :
  body s = Some (Some b) ->
  let d := stripped (doc s) b [Descendant (akn "authorialNote")] in
  eval get_articles s
  = Return (map (article_of d) (findall d b [Descendant (akn "article")]))
  /\ forall a,
       (forall heading,
           find d a [Child (akn "heading")] = Some heading ->
           article_title (article_of d a) = text d heading)
       /\ (find d a [Child (akn "heading")] = None ->
           1 < List.length (findall d a [Child (akn "num")]) ->
           exists second,
             nth_error (findall d a [Child (akn "num")]) 1 = Some second
             /\ article_title (article_of d a) = text d second)
       /\ (find d a [Child (akn "heading")] = None ->
           List.length (findall d a [Child (akn "num")]) <= 1 ->
           article_title (article_of d a) = None).
Proof.
  intros Hb d. split.
  - apply (eval_eq _ _ _ _ (get_articles_run s b Hb)).
  - intros a. simpl. unfold article_title_of. repeat split.
    + intros h ->. reflexivity.
    + intros -> Hl.
      destruct (findall d a [Child (akn "num")]) as [|n1 [|n2 l]];
        simpl in Hl; try lia.
      exists n2. split; reflexivity.
    + intros -> Hl.
      destruct (findall d a [Child (akn "num")]) as [|n1 [|n2 l]];
        simpl in Hl; try lia; reflexivity.
Qed.

Lemma article_title_spec_witness :
  body (exec get_body (loaded doc_chapter)) = Some (Some [0; 0])
  /\ eval get_articles (exec get_body (loaded doc_chapter))
     = Return [mkArticle (Some (lit "art_1")) (Some (lit "Article 1"))
                 (Some (lit "Scope"))
                 [mkElement (lit "art_1__para_1") (lit "First.");
                  mkElement (lit "art_1__para_2") (lit "Second.")]].
Proof.
  assert (H : body (exec get_body (loaded doc_chapter)) = Some (Some [0; 0]))
    by reflexivity.
  split; [exact H|].
  destruct (article_title_spec (exec get_body (loaded doc_chapter)) [0; 0] H)
    as [E _].
  rewrite E. reflexivity.
Defined.

(** ** Order of the operations *)

(** C9 fails for chapter extraction, which succeeds on a parser whose body
    was never located; and the operations are not independent: the
    chapter heading read before [get_articles] has the text of the note
    in it, the one read after it has not. *)
Lemma get_chapters_without_get_body :
  body (loaded doc_chapter) = None
  /\ eval get_chapters (loaded doc_chapter) = Return tt
  /\ chapters (exec get_chapters (loaded doc_chapter))
     = Some [mkChapter (Some (lit "chp_1")) (Some (lit "I"))
                       (Some (lit "Generaln provisions"))]
  /\ chapters (exec get_chapters (loaded doc_chapter))
     <> chapters (exec (get_body ;; get_articles ;; get_chapters)
                       (loaded doc_chapter)).
Proof.
  destruct doc_chapter_runs as [E1 E2].
  split; [reflexivity|]. unfold eval, exec at 1 2. rewrite E1.
  split; [reflexivity|]. split; [reflexivity|].
  rewrite E2. discriminate.
Qed.

(** C9, amended.  On a loaded parser:
    - [get_articles] needs the located body: it raises [AttributeError]
      when [get_body] has not run or has found no body, and returns the
      article records once a body is located, in particular right after a
      [get_body] that found one;
    - [get_chapters] does not: it returns whatever [self.body] holds;
    - [get_chapters] and the metadata, preface and preamble operations
      neither read nor assign [self.body] and [self.act], so that running
      the locators before them changes nothing in what they do;
    - the operations are not independent of one another in general, since
      stripping changes the tree the others read: there is a document
      whose chapters read differently before and after [get_articles]. *)
Theorem extraction_order s r :
  root s = Some r ->
  (body s = None \/ body s = Some None ->
   eval get_articles s = Raise AttributeError)
  /\ (forall b, body s = Some (Some b) ->
      exists arts, eval get_articles s = Return arts)
  /\ (forall b, find (doc s) r [Descendant (akn "body")] = Some b ->
      exists arts, eval (get_body ;; get_articles) s = Return arts)
  /\ eval get_chapters s = Return tt
  /\ (ignores_locators get_chapters
      /\ ignores_locators get_meta_identification
      /\ ignores_locators get_meta_references
      /\ ignores_locators get_meta_proprietary
      /\ ignores_locators get_preface
      /\ ignores_locators get_preamble_formula
      /\ ignores_locators get_preamble_citations
      /\ ignores_locators get_preamble_recitals
      /\ ignores_locators get_preamble)
  /\ (exists file,
        chapters (exec get_chapters (loaded file))
        <> chapters (exec (get_body ;; get_articles ;; get_chapters)
                          (loaded file))).
Proof.
  intros Hr. split; [|split; [|split; [|split; [|split]]]].
  - intros H. apply (eval_eq _ _ _ _ (get_articles_unlocated s H)).
  - intros b Hb. eexists. apply (eval_eq _ _ _ _ (get_articles_run s b Hb)).
  - intros b Hb. eexists. unfold eval, bind.
    rewrite (get_body_run s r Hr), Hb.
    rewrite (get_articles_run (with_body s (Some b)) b eq_refl). reflexivity.
  - apply (eval_eq _ _ _ _ (get_chapters_run s r Hr)).
  - repeat split.
    + apply ign_get_chapters.
    + apply ign_get_meta_identification.
    + apply ign_get_meta_references.
    + apply ign_get_meta_proprietary.
    + apply ign_get_preface.
    + apply ign_get_preamble_formula.
    + apply ign_get_preamble_citations.
    + apply ign_get_preamble_recitals.
    + apply ign_get_preamble.
  - exists doc_chapter. destruct doc_chapter_runs as [E1 E2].
    unfold exec at 1. rewrite E1, E2. discriminate.
Qed.

Lemma extraction_order_witness :
  root (loaded doc_chapter) = Some []
  /\ body (loaded doc_chapter) = None
  /\ eval get_articles (loaded doc_chapter) = Raise AttributeError
  /\ find (doc (loaded doc_chapter)) [] [Descendant (akn "body")] = Some [0; 0]
  /\ (exists arts,
        eval (get_body ;; get_articles) (loaded doc_chapter) = Return arts)
  /\ eval get_chapters (loaded doc_chapter) = Return tt.
Proof.
  assert (H1 : root (loaded doc_chapter) = Some []) by reflexivity.
  assert (H2 : body (loaded doc_chapter) = None) by reflexivity.
  assert (H3 : find (doc (loaded doc_chapter)) [] [Descendant (akn "body")]
               = Some [0; 0]) by reflexivity.
  destruct (extraction_order (loaded doc_chapter) [] H1)
    as (A & _ & B & C & _).
  split; [exact H1|]. split; [exact H2|].
  split; [exact (A (or_introl H2))|]. split; [exact H3|].
  split; [exact (B _ H3) | exact C].
Defined.

(* ================================================================== *)
(** * Lemmas for the further properties *)
(* ================================================================== *)

(** ** Text is only appended *)

Lemma text_set_text d p v r :
  text (set_text d p v) r = if ref_eqb r p then v else text d r.
Proof.
  unfold text, set_text. simpl. destruct (ref_eqb r p); reflexivity.
Qed.

Lemma tail_set_tail d p v r :
  tail (set_tail d p v) r = if ref_eqb r p then v else tail d r.
Proof.
  unfold tail, set_tail. simpl. destruct (ref_eqb r p); reflexivity.
Qed.

(** What [remove_item_doc] changes, field by field. *)
Lemma remove_item_doc_unlinked_iff d p item r :
  is_unlinked (remove_item_doc d p item) r = ref_eqb r item || is_unlinked d r.
Proof.
  unfold remove_item_doc, keep_tail.
  destruct (truthy (tail d item)); [|reflexivity].
  destruct (getchildren (unlink d item) p); reflexivity.
Qed.

Lemma remove_item_doc_parsed d p item :
  parsed (remove_item_doc d p item) = parsed d.
Proof.
  unfold remove_item_doc, keep_tail.
  destruct (truthy (tail d item)); [|reflexivity].
  destruct (getchildren (unlink d item) p); reflexivity.
Qed.

Lemma remove_item_doc_text d p item r :
  text (remove_item_doc d p item) r = text d r
  \/ (r = p /\ exists t, text (remove_item_doc d p item) r
                        = Some (or_empty (text d r) ++ t)).
Proof.
  unfold remove_item_doc, keep_tail.
  destruct (truthy (tail d item)); [|left; reflexivity].
  destruct (getchildren (unlink d item) p) as [|c cs].
  - rewrite text_set_text. destruct (ref_eqb r p) eqn:E.
    + apply ref_eqb_eq in E. subst r. right. split; [reflexivity|].
      eexists. reflexivity.
    + left. reflexivity.
  - left. reflexivity.
Qed.

Lemma remove_item_doc_tail d p item r :
  tail (remove_item_doc d p item) r = tail d r
  \/ ((exists j, r = j :: p)
      /\ exists t, tail (remove_item_doc d p item) r
                   = Some (or_empty (tail d r) ++ t)).
Proof.
  unfold remove_item_doc, keep_tail.
  destruct (truthy (tail d item)); [|left; reflexivity].
  destruct (getchildren (unlink d item) p) as [|c cs] eqn:Ec.
  - left. reflexivity.
  - rewrite tail_set_tail. destruct (ref_eqb r (last (c :: cs) [])) eqn:E.
    + apply ref_eqb_eq in E. right. split.
      * assert (Hin : In r (getchildren (unlink d item) p)).
        { rewrite Ec, E. destruct (@exists_last _ (c :: cs)) as (l & x & Hx);
            [discriminate|].
          rewrite Hx, last_last. apply in_or_app. right. left. reflexivity. }
        apply in_getchildren in Hin. destruct Hin as (j & -> & _). eauto.
      * subst r. eexists. reflexivity.
    + left. reflexivity.
Qed.

Lemma extends_refl d : extends d d.
Proof. intros e. split; exists []; rewrite app_nil_r; reflexivity. Qed.

Lemma extends_trans d1 d2 d3 : extends d1 d2 -> extends d2 d3 -> extends d1 d3.
Proof.
  intros H1 H2 e. destruct (H1 e) as [[a Ha] [b Hb]].
  destruct (H2 e) as [[a' Ha'] [b' Hb']]. split.
  - exists (a ++ a'). rewrite Ha', Ha, app_assoc. reflexivity.
  - exists (b ++ b'). rewrite Hb', Hb, app_assoc. reflexivity.
Qed.

Lemma extends_remove_item_doc d p item : extends d (remove_item_doc d p item).
Proof.
  intros e. split.
  - destruct (remove_item_doc_text d p item e) as [-> | [_ [t ->]]].
    + exists []. rewrite app_nil_r. reflexivity.
    + exists t. reflexivity.
  - destruct (remove_item_doc_tail d p item e) as [-> | [_ [t ->]]].
    + exists []. rewrite app_nil_r. reflexivity.
    + exists t. reflexivity.
Qed.

Lemma remove_item_extends item s :
  extends (doc s) (doc (exec (remove_item item) s)).
Proof.
  unfold exec.
  destruct (remove_item_cases item s) as [(p & _ & ->) | [_ ->]]; simpl.
  - apply extends_remove_item_doc.
  - apply extends_refl.
Qed.

Lemma for_remove_item_extends (l : list ref) : forall s,
  extends (doc s) (doc (exec (for_ l remove_item) s)).
Proof.
  induction l as [|a l IH]; intros s.
  - apply extends_refl.
  - unfold exec. rewrite for_cons.
    pose proof (remove_item_extends a s) as H. unfold exec in H.
    destruct (remove_item a s) as [s1 [u|e]]; simpl in *.
    + eapply extends_trans; [exact H | apply IH].
    + exact H.
Qed.

Lemma exec_remove_node tree node s :
  exec (remove_node tree node) s
  = exec (for_ (findall (doc s) tree node) remove_item) s.
Proof.
  unfold exec. rewrite remove_node_unfold.
  destruct (for_ (findall (doc s) tree node) remove_item s) as [s1 [u|e]];
    reflexivity.
Qed.

(** ** Which elements are unlinked *)

Lemma remove_items_unlinked (l : list ref) : forall d r,
  ~ In [] l ->
  (is_unlinked (remove_items d l) r = true
   <-> In r l \/ is_unlinked d r = true).
Proof.
  unfold remove_items. induction l as [|a l IH]; intros d r Hn; simpl.
  - tauto.
  - assert (Hl : ~ In [] l) by (intros H; apply Hn; right; exact H).
    rewrite (IH _ r Hl). clear IH.
    destruct (getparent d a) as [p|] eqn:E.
    + rewrite remove_item_doc_unlinked_iff, orb_true_iff, ref_eqb_eq.
      split; [intros [H | [-> | H]]; auto | intros [[<- | H] | H]; auto].
    + assert (Ha : is_unlinked d a = true).
      { apply getparent_None; [exact E|]. intros ->. apply Hn. left.
        reflexivity. }
      split; [tauto|]. intros [[<- | H] | H]; auto.
Qed.

Lemma remove_items_parsed (l : list ref) : forall d,
  parsed (remove_items d l) = parsed d.
Proof.
  unfold remove_items. induction l as [|a l IH]; intros d; simpl.
  - reflexivity.
  - rewrite IH. destruct (getparent d a); [|reflexivity].
    apply remove_item_doc_parsed.
Qed.

(** ** Elements found are beneath the start *)

Lemma at_or_under_refl e : at_or_under e e.
Proof. exists []. reflexivity. Qed.

Lemma under_at_or_under tree r : under tree r -> at_or_under tree r.
Proof. intros (pre & -> & _). exists pre. reflexivity. Qed.

Lemma under_trans tree x r : at_or_under tree x -> under x r -> under tree r.
Proof.
  intros (p1 & ->) (p2 & -> & Hn). exists (p2 ++ p1).
  rewrite app_assoc. split; [reflexivity|].
  destruct p2; [congruence | discriminate].
Qed.

Lemma select_under d st res r :
  In r (select d st res) -> exists x, In x res /\ under x r.
Proof.
  destruct st as [t|t]; simpl; rewrite in_flat_map; intros (x & Hx & Hr);
    exists x; (split; [exact Hx|]).
  - unfold iterchildren in Hr. apply filter_In in Hr. destruct Hr as [Hr _].
    apply in_getchildren in Hr. destruct Hr as (i & -> & _).
    exists [i]. split; [reflexivity | discriminate].
  - unfold iterdescendants in Hr. apply filter_In in Hr. destruct Hr as [Hr _].
    apply in_descendants, beneath_suffix in Hr. exact Hr.
Qed.

Lemma fold_select_at_or_under d tree p : forall res r,
  (forall x, In x res -> at_or_under tree x) ->
  In r (fold_left (fun result s => select d s result) p res) ->
  at_or_under tree r.
Proof.
  induction p as [|st p IH]; intros res r Hres Hr; simpl in Hr.
  - apply Hres, Hr.
  - apply (IH (select d st res)); [|exact Hr].
    intros x Hx. apply select_under in Hx. destruct Hx as (y & Hy & Hu).
    apply under_at_or_under. eapply under_trans; eauto.
Qed.

Lemma findall_under d tree p r :
  p <> [] -> In r (findall d tree p) -> under tree r.
Proof.
  intros Hp. destruct (exists_last Hp) as (q & st & ->).
  rewrite findall_app. simpl. intros Hr.
  apply select_under in Hr. destruct Hr as (x & Hx & Hu).
  eapply under_trans; [|exact Hu].
  apply (fold_select_at_or_under d tree q [tree] x); [|exact Hx].
  intros y [<- | []]. apply at_or_under_refl.
Qed.

(** ** Nothing changes outside the subtree *)

Lemma same_outside_refl tree d : same_outside tree d d.
Proof. intros r. split; auto. Qed.

Lemma same_outside_trans tree d1 d2 d3 :
  same_outside tree d1 d2 -> same_outside tree d2 d3 ->
  same_outside tree d1 d3.
Proof.
  intros H1 H2 r. destruct (H1 r) as [A B]. destruct (H2 r) as [A' B'].
  split.
  - intros H. destruct (A H) as [E1 E2]. destruct (A' H) as [E3 E4].
    split; congruence.
  - intros H. rewrite <- (B H). apply B'. exact H.
Qed.

Lemma same_outside_remove_item_doc tree d i p :
  under tree (i :: p) ->
  same_outside tree d (remove_item_doc d p (i :: p)).
Proof.
  intros Hu r.
  assert (Hp : at_or_under tree p).
  { destruct Hu as (pre & E & Hn). destruct pre as [|j pre]; [congruence|].
    injection E as -> ->. exists pre. reflexivity. }
  split.
  - intros Hr. split.
    + rewrite remove_item_doc_unlinked_iff.
      destruct (ref_eqb r (i :: p)) eqn:E; [|reflexivity].
      apply ref_eqb_eq in E. subst r. contradiction.
    + destruct (remove_item_doc_tail d p (i :: p) r) as [-> | [[j ->] _]];
        [reflexivity|].
      exfalso. apply Hr. destruct Hp as (pre & ->).
      exists (j :: pre). split; [reflexivity | discriminate].
  - intros Hr.
    destruct (remove_item_doc_text d p (i :: p) r) as [-> | [-> _]];
      [reflexivity | contradiction].
Qed.

Lemma remove_item_same_outside tree item s :
  under tree item ->
  same_outside tree (doc s) (doc (exec (remove_item item) s)).
Proof.
  intros Hu. unfold exec.
  destruct (remove_item_cases item s) as [(p & Hp & ->) | [_ ->]]; simpl.
  - destruct item as [|i q]; [discriminate|]. simpl in Hp.
    destruct (is_unlinked (doc s) (i :: q)); [discriminate|].
    injection Hp as <-. apply same_outside_remove_item_doc. exact Hu.
  - apply same_outside_refl.
Qed.

Lemma for_remove_item_same_outside tree (l : list ref) : forall s,
  (forall a, In a l -> under tree a) ->
  same_outside tree (doc s) (doc (exec (for_ l remove_item) s)).
Proof.
  induction l as [|a l IH]; intros s Hl.
  - apply same_outside_refl.
  - unfold exec. rewrite for_cons.
    pose proof (remove_item_same_outside tree a s (Hl a (or_introl eq_refl)))
      as H.
    unfold exec in H.
    destruct (remove_item a s) as [s1 [u|e]]; simpl in *.
    + eapply same_outside_trans; [exact H|].
      apply IH. intros b Hb. apply Hl. right. exact Hb.
    + exact H.
Qed.

(** ** Trimmed strings *)

Lemma lstrip_head s c rest : lstrip s = c :: rest -> isspace c = false.
Proof.
  induction s as [|x s IH]; simpl; [discriminate|].
  destruct (isspace x) eqn:E; [exact IH|]. intros [= <- _]. exact E.
Qed.

Lemma lstrip_suffix s : exists pre, s = pre ++ lstrip s.
Proof.
  induction s as [|x s [pre IH]]; simpl.
  - exists []. reflexivity.
  - destruct (isspace x).
    + exists (x :: pre). simpl. f_equal. exact IH.
    + exists []. reflexivity.
Qed.

Lemma strip_trimmed s : trimmed (strip s).
Proof.
  unfold strip, rstrip. set (t := lstrip s).
  destruct (lstrip_suffix (rev t)) as [pre Hpre]. split.
  - intros c rest E.
    assert (Ht : t = c :: rest ++ rev pre).
    { rewrite <- (rev_involutive t), Hpre, rev_app_distr, E. reflexivity. }
    apply (lstrip_head s c (rest ++ rev pre)). exact Ht.
  - intros c front E.
    apply (f_equal (@rev _)) in E. rewrite rev_involutive, rev_app_distr in E.
    simpl in E. apply (lstrip_head _ _ _ E).
Qed.

(** ** Paragraph grouping *)

Lemma beneath_ancestors d a e : beneath d a e -> In a (ancestors_or_self d e).
Proof.
  induction 1 as [e Hp _ | e p Hp _ _ IH];
    rewrite ancestors_or_self_unfold, Hp; right.
  - rewrite ancestors_or_self_unfold. left. reflexivity.
  - exact IH.
Qed.

Lemma nearest_identified_under d node p :
  identified d node = true -> beneath d node p ->
  nearest_identified d p <> None.
Proof.
  intros Hi Hb E. unfold nearest_identified in E.
  pose proof (find_none _ _ E node (beneath_ancestors d node p Hb)) as H.
  congruence.
Qed.

Lemma nearest_identified_true d p a :
  nearest_identified d p = Some a -> identified d a = true.
Proof. intros H. apply find_some in H. tauto. Qed.

Lemma text_by_eId_ids d node :
  Forall (fun e => element_eId e <> []) (text_by_eId d node).
Proof.
  unfold text_by_eId. apply Forall_forall. intros e He.
  apply in_flat_map in He. destruct He as (p & _ & He).
  destruct (nearest_identified d p) as [a|] eqn:E; [|destruct He].
  destruct He as [<- | []]. simpl.
  apply nearest_identified_true in E. unfold identified in E.
  destruct (get d a "eId") as [[|c w]|]; simpl in *; discriminate.
Qed.

Lemma text_by_eId_length d node :
  List.length (text_by_eId d node) <= List.length (paragraphs d node).
Proof.
  unfold text_by_eId. induction (paragraphs d node) as [|p l IH]; simpl.
  - lia.
  - rewrite length_app. destruct (nearest_identified d p); simpl; lia.
Qed.

Lemma text_by_eId_all d node :
  identified d node = true ->
  map element_text (text_by_eId d node)
  = map (full_text_of d) (paragraphs d node).
Proof.
  intros Hi. unfold text_by_eId.
  assert (H : forall p, In p (paragraphs d node) ->
                        nearest_identified d p <> None).
  { intros p Hp. apply in_paragraphs in Hp.
    apply (nearest_identified_under d node p Hi). tauto. }
  induction (paragraphs d node) as [|p l IH]; simpl; [reflexivity|].
  rewrite map_app, IH by (intros q Hq; apply H; right; exact Hq).
  destruct (nearest_identified d p) eqn:E.
  - reflexivity.
  - exfalso. apply (H p); [left; reflexivity | exact E].
Qed.

(** ** Preface and formula *)

Lemma get_preface_run s r :
  root s = Some r ->
  get_preface s =
  (s, Return (match find (doc s) r [Descendant (akn "preface")] with
              | Some preface =>
                  Some (map (full_text_of (doc s))
                            (findall (doc s) preface [Child (akn "p")]))
              | None => None
              end)).
Proof.
  intros Hr. unfold get_preface.
  unfold bind at 1. unfold self_root. rewrite Hr.
  unfold bind at 1. cbv [find_ read].
  destruct (find (doc s) r [Descendant (akn "preface")]) as [pf|];
    [|reflexivity].
  unfold bind at 1. unfold findall_, read. unfold bind at 1.
  rewrite reads_foldM with
    (g := fun acc p d => acc ++ [full_text_of d p]).
  - rewrite fold_left_snoc, flat_map_single. reflexivity.
  - intros acc p s0. unfold bind. rewrite (reads_full_text p s0). reflexivity.
Qed.

Lemma get_preamble_formula_run s r :
  root s = Some r ->
  get_preamble_formula s =
  (s, Return (option_map (direct_text_of (doc s))
                (find (doc s) r [Descendant (akn "preamble");
                                 Child (akn "formula")]))).
Proof.
  intros Hr. unfold get_preamble_formula.
  unfold bind at 1. unfold self_root. rewrite Hr.
  unfold bind at 1. cbv [find_ read].
  destruct (find (doc s) r [Descendant (akn "preamble"); Child (akn "formula")])
    as [f|]; [|reflexivity].
  unfold bind. rewrite (direct_paragraph_text_reads f s). reflexivity.
Qed.

(** ** Absent preamble *)

Lemma fold_select_nil d p :
  fold_left (fun result s => select d s result) p [] = [].
Proof.
  induction p as [|st p IH]; simpl; [reflexivity|].
  destruct st; simpl; exact IH.
Qed.

Lemma find_absent_first d r st p :
  mentions (step_tag st) (parsed d) = false -> find d r (st :: p) = None.
Proof.
  intros H. unfold find.
  change (st :: p) with ([st] ++ p). rewrite findall_app.
  pose proof (findall_absent d r [] st H) as E. cbn [app] in E.
  rewrite E, fold_select_nil. reflexivity.
Qed.

(** ** Identification *)

Lemma frbr_block_raises {A} d identification t children
    (record : Doc -> ref -> A) e :
  frbr_block d identification t children record = Raise e ->
  e = AttributeError.
Proof.
  unfold frbr_block. destruct (find d identification [Child t]);
    [|discriminate].
  destruct (forallb _ _); [discriminate|]. intros [= <-]. reflexivity.
Qed.

Lemma _get_frbr_work_run identification s :
  _get_frbr_work identification s
  = (s, frbr_block (doc s) identification (akn "FRBRWork") work_children
          work_of).
Proof.
  unfold _get_frbr_work, frbr_block, work_of, work_children.
  cbn [forallb]. unfold bind at 1. cbv [find_ read].
  destruct (find (doc s) identification [Child (akn "FRBRWork")]) as [w|];
    [|reflexivity].
  unfold bind, ret. run_fields.
Qed.

Lemma _get_frbr_expression_run identification s :
  _get_frbr_expression identification s
  = (s, frbr_block (doc s) identification (akn "FRBRExpression")
          expression_children expression_of).
Proof.
  unfold _get_frbr_expression, frbr_block, expression_of, expression_children.
  cbn [forallb]. unfold bind at 1. cbv [find_ read].
  destruct (find (doc s) identification [Child (akn "FRBRExpression")])
    as [w|]; [|reflexivity].
  unfold bind, ret. run_fields.
Qed.

Lemma _get_frbr_manifestation_run identification s :
  _get_frbr_manifestation identification s
  = (s, frbr_block (doc s) identification (akn "FRBRManifestation")
          manifestation_children manifestation_of).
Proof.
  unfold _get_frbr_manifestation, frbr_block, manifestation_of,
    manifestation_children.
  cbn [forallb]. unfold bind at 1. cbv [find_ read].
  destruct (find (doc s) identification [Child (akn "FRBRManifestation")])
    as [w|]; [|reflexivity].
  unfold bind, ret. run_fields.
Qed.

(** ** Locators *)

Lemma get_act_run s r :
  root s = Some r ->
  get_act s = (with_act s (located (doc s) r "act"), Return tt).
Proof.
  intros Hr. unfold get_act, located.
  cbv [bind self_root find_ read set_act ret]. rewrite Hr. simpl.
  destruct (find (doc s) r [Descendant (akn "act")]); reflexivity.
Qed.

Lemma get_body_located s r :
  root s = Some r ->
  get_body s = (with_body s (located (doc s) r "body"), Return tt).
Proof. intros Hr. rewrite (get_body_run s r Hr). reflexivity. Qed.

Lemma findall_descendant_sorted d r t :
  StronglySorted before (findall d r [Descendant t]).
Proof.
  unfold findall. simpl. rewrite app_nil_r. unfold iterdescendants.
  apply StronglySorted_filter, descendants_sorted.
Qed.

Lemma find_descendant_some d r t e :
  find d r [Descendant t] = Some e ->
  beneath d r e /\ tag d e = t
  /\ forall e', beneath d r e' -> tag d e' = t -> e' = e \/ before e e'.
Proof.
  unfold find. intros H.
  pose proof (findall_descendant_sorted d r t) as Hs.
  destruct (findall d r [Descendant t]) as [|x l] eqn:E; [discriminate|].
  injection H as ->.
  assert (Hin : forall c, In c (e :: l) <-> beneath d r c /\ tag d c = t).
  { intros c. rewrite <- E. apply in_findall_descendant. }
  destruct (proj1 (Hin e) (or_introl eq_refl)) as [Hb Ht].
  split; [exact Hb|]. split; [exact Ht|].
  intros e' Hb' Ht'. destruct (proj2 (Hin e') (conj Hb' Ht')) as [<- | Hl].
  - left. reflexivity.
  - right. apply StronglySorted_inv in Hs. destruct Hs as [_ Hf].
    rewrite Forall_forall in Hf. apply Hf, Hl.
Qed.

Lemma find_descendant_none d r t :
  find d r [Descendant t] = None ->
  forall e', beneath d r e' -> tag d e' <> t.
Proof.
  unfold find. intros H e' Hb Ht.
  destruct (findall d r [Descendant t]) as [|x l] eqn:E; [|discriminate].
  assert (Hin : In e' (findall d r [Descendant t])).
  { apply in_findall_descendant. auto. }
  rewrite E in Hin. destruct Hin.
Qed.

Lemma located_spec d r local :
  match located d r local with
  | Some e =>
      beneath d r e
      /\ (tag d e = akn local
          \/ (tag d e = local
              /\ forall e', beneath d r e' -> tag d e' <> akn local))
      /\ (forall e', beneath d r e' -> tag d e' = tag d e ->
                     e' = e \/ before e e')
  | None =>
      forall e', beneath d r e' ->
                 tag d e' <> akn local /\ tag d e' <> local
  end.
Proof.
  unfold located.
  destruct (find d r [Descendant (akn local)]) as [e|] eqn:E1.
  - destruct (find_descendant_some d r _ e E1) as (Hb & Ht & Hf).
    split; [exact Hb|]. split; [left; exact Ht|].
    intros e' Hb' Ht'. apply Hf; [exact Hb' | congruence].
  - pose proof (find_descendant_none d r _ E1) as Hn.
    destruct (find d r [Descendant local]) as [e|] eqn:E2.
    + destruct (find_descendant_some d r _ e E2) as (Hb & Ht & Hf).
      split; [exact Hb|]. split; [right; split; [exact Ht | exact Hn]|].
      intros e' Hb' Ht'. apply Hf; [exact Hb' | congruence].
    + pose proof (find_descendant_none d r _ E2) as Hn2.
      intros e' Hb. split; [apply Hn | apply Hn2]; exact Hb.
Qed.

(** ** Calls repeated *)

Lemma stripped_parser d tree st :
  let s := mkParser d None None None None None in
  remove_node tree [st] s
  = (set_doc s (stripped d tree [st]), Return tree).
Proof. intros s. apply (remove_node_one tree st s). Qed.

Lemma findall_stripped d tree st :
  findall (stripped d tree [st]) tree [st] = [].
Proof.
  pose proof (stripped_parser d tree st) as H. cbv zeta in H.
  apply (remove_node_leaves_none tree [st] _ _ tree) in H; [|discriminate].
  exact H.
Qed.

Lemma stripped_stripped d tree st :
  stripped (stripped d tree [st]) tree [st] = stripped d tree [st].
Proof.
  unfold stripped at 1. rewrite findall_stripped. reflexivity.
Qed.

Lemma get_articles_twice s b :
  body s = Some (Some b) ->
  get_articles (exec get_articles s)
  = (exec get_articles s, eval get_articles s).
Proof.
  intros Hb. unfold exec, eval. rewrite (get_articles_run s b Hb). simpl.
  rewrite (get_articles_run (after_get_articles s b) b) by reflexivity.
  unfold after_get_articles at 1 3. simpl.
  rewrite stripped_stripped. reflexivity.
Qed.

(** ** Finding again after stripping *)

Lemma among_In l x : among l x = true <-> In x l.
Proof.
  unfold among. rewrite existsb_exists. split.
  - intros (y & Hy & E). apply ref_eqb_eq in E. subst. exact Hy.
  - intros H. exists x. split; [exact H | apply ref_eqb_refl].
Qed.

Lemma path_lt_trans a : forall b c,
  path_lt a b = true -> path_lt b c = true -> path_lt a c = true.
Proof.
  induction a as [|x a IH]; intros [|y b] [|z c]; simpl; try discriminate;
    auto.
  rewrite !orb_true_iff, !andb_true_iff, !Nat.ltb_lt, !Nat.eqb_eq.
  intros [H1 | [H1 H2]] [H3 | [H3 H4]].
  - left. lia.
  - left. lia.
  - left. lia.
  - right. split; [lia | eapply IH; eauto].
Qed.

Lemma before_trans a b c : before a b -> before b c -> before a c.
Proof. unfold before. apply path_lt_trans. Qed.

Lemma filter_filter_comm {A} (f g : A -> bool) l :
  filter f (filter g l) = filter g (filter f l).
Proof.
  induction l as [|a l IH]; simpl; [reflexivity|].
  destruct (f a) eqn:Ef, (g a) eqn:Eg; simpl; rewrite ?Ef, ?Eg, IH;
    reflexivity.
Qed.

(** A sorted list whose elements are among those of a sorted list is got
    from it by filtering. *)
Lemma sorted_incl_filter (l : list ref) : forall l',
  StronglySorted before l -> StronglySorted before l' -> incl l' l ->
  l' = filter (among l') l.
Proof.
  induction l as [|a l IH]; intros l' Hl Hl' Hi.
  - destruct l' as [|b l']; [reflexivity|]. destruct (Hi b (or_introl eq_refl)).
  - apply StronglySorted_inv in Hl. destruct Hl as [Hl Ha].
    rewrite Forall_forall in Ha.
    assert (Hna : ~ In a l).
    { intros H. apply (before_irrefl a), Ha, H. }
    destruct l' as [|b l'1].
    + simpl. clear. induction l as [|x l IH]; simpl; [reflexivity | exact IH].
    + pose proof Hl' as Hl'0.
      apply StronglySorted_inv in Hl'. destruct Hl' as [Hl'1 Hb].
      rewrite Forall_forall in Hb.
      destruct (list_eq_dec Nat.eq_dec b a) as [-> | Hne].
      * cbn [filter].
        assert (Ea : among (a :: l'1) a = true).
        { apply among_In. left. reflexivity. }
        rewrite Ea. f_equal.
        assert (Hi1 : incl l'1 l).
        { intros x Hx. destruct (Hi x (or_intror Hx)) as [<- | H]; [|exact H].
          exfalso. apply (before_irrefl a), Hb, Hx. }
        rewrite (IH l'1 Hl Hl'1 Hi1) at 1.
        apply filter_ext_in. intros x Hx. unfold among. simpl.
        destruct (ref_eqb x a) eqn:E; [|reflexivity].
        apply ref_eqb_eq in E. subst x. contradiction.
      * assert (Hbl : In b l).
        { destruct (Hi b (or_introl eq_refl)) as [E | H];
            [congruence | exact H]. }
        assert (Hna' : ~ In a (b :: l'1)).
        { intros [E | H]; [congruence|].
          apply (before_irrefl a). eapply before_trans; [apply Ha, Hbl|].
          apply Hb, H. }
        cbn [filter]. destruct (among (b :: l'1) a) eqn:E.
        -- apply among_In in E. contradiction.
        -- apply IH; [exact Hl | exact Hl'0|].
           intros x Hx.
           destruct (Hi x Hx) as [<- | H]; [contradiction | exact H].
Qed.

Lemma descendants_shrinks_filter d d' r :
  shrinks d d' ->
  descendants d' r = filter (among (descendants d' r)) (descendants d r).
Proof.
  intros Hs. apply sorted_incl_filter; try apply descendants_sorted.
  intros x Hx. apply in_descendants. apply in_descendants in Hx.
  eapply beneath_shrinks; eauto.
Qed.

Lemma iterdescendants_shrinks_filter d d' t r :
  shrinks d d' ->
  iterdescendants d' t r
  = filter (among (descendants d' r)) (iterdescendants d t r).
Proof.
  intros Hs. unfold iterdescendants.
  rewrite (descendants_shrinks_filter d d' r Hs) at 1.
  rewrite filter_filter_comm. f_equal.
  apply filter_ext. intros x. rewrite (tag_shrinks d d' x Hs). reflexivity.
Qed.

Lemma over_children_shrinks_filter d d' e cs : forall i,
  (forall r, is_unlinked d r = true -> is_unlinked d' r = true) ->
  over_children d' e (fun c _ => [c]) i cs
  = filter (fun c => negb (is_unlinked d' c))
      (over_children d e (fun c _ => [c]) i cs).
Proof.
  intros i Hs. revert i. induction cs as [|c cs IH]; intros i; simpl;
    [reflexivity|].
  rewrite filter_app, IH. f_equal.
  destruct (is_unlinked d (i :: e)) eqn:E.
  - rewrite (Hs _ E). reflexivity.
  - simpl. destruct (is_unlinked d' (i :: e)); reflexivity.
Qed.

Lemma iterchildren_shrinks_filter d d' t e :
  shrinks d d' ->
  iterchildren d' t e
  = filter (fun c => negb (is_unlinked d' c)) (iterchildren d t e).
Proof.
  intros Hs. unfold iterchildren.
  assert (Hg : getchildren d' e
               = filter (fun c => negb (is_unlinked d' c)) (getchildren d e)).
  { unfold getchildren. destruct Hs as [Hp Hu]. rewrite Hp.
    destruct (node_at (parsed d) e); [|reflexivity].
    apply over_children_shrinks_filter. exact Hu. }
  rewrite Hg, (filter_filter_comm (fun c => negb (is_unlinked d' c))).
  apply filter_ext. intros x. rewrite (tag_shrinks d d' x Hs). reflexivity.
Qed.

Lemma hd_filter {A} (f : A -> bool) l x :
  hd_error l = Some x -> f x = true -> hd_error (filter f l) = Some x.
Proof.
  destruct l as [|a l]; simpl; [discriminate|]. intros [= ->] ->. reflexivity.
Qed.

Lemma hd_flat_map_filter {A B} (f : A -> list B) (K : A -> bool)
    (Q : B -> bool) l x :
  hd_error (flat_map f l) = Some x ->
  (forall m, In m l -> In x (f m) -> K m = true) ->
  Q x = true ->
  hd_error (flat_map (fun m => filter Q (f m)) (filter K l)) = Some x.
Proof.
  intros H HK HQ. induction l as [|m l IH]; simpl in *; [discriminate|].
  destruct (f m) as [|y ys] eqn:E.
  - simpl in H. destruct (K m); simpl; rewrite ?E; simpl; apply IH; auto.
  - simpl in H. injection H as ->.
    rewrite (HK m) by (rewrite ?E; simpl; auto). simpl. rewrite E. simpl.
    rewrite HQ. reflexivity.
Qed.

(** Elements that are not beneath [tree]. *)
Lemma not_under_suffix tree x : at_or_under x tree -> ~ under tree x.
Proof.
  intros (pre & E) (pre' & E' & Hn). subst tree.
  apply (f_equal (@List.length nat)) in E'. rewrite !length_app in E'.
  destruct pre'; [congruence | simpl in E'; lia].
Qed.

Lemma beneath_kept d d' a e :
  parsed d' = parsed d ->
  (forall x, at_or_under x e -> is_unlinked d' x = is_unlinked d x) ->
  beneath d a e -> beneath d' a e.
Proof.
  intros Hp Hu Hb. induction Hb as [e Hg Hv | e p Hg Hv Hb IH].
  - apply beneath_child.
    + destruct e as [|i q]; [discriminate|]. simpl in *.
      rewrite (Hu (i :: q) (at_or_under_refl _)). exact Hg.
    + unfold valid in *. rewrite Hp. exact Hv.
  - assert (Hg' : getparent d' e = Some p).
    { destruct e as [|i q]; [discriminate|]. simpl in *.
      rewrite (Hu (i :: q) (at_or_under_refl _)). exact Hg. }
    apply beneath_step with (p := p); [exact Hg'| |].
    + unfold valid in *. rewrite Hp. exact Hv.
    + apply IH. intros x (pre & E). apply Hu.
      destruct e as [|i q]; [discriminate|]. simpl in Hg.
      destruct (is_unlinked d (i :: q)); [discriminate|].
      injection Hg as <-. exists (i :: pre). simpl. rewrite E. reflexivity.
Qed.

(** ** The store after stripping one subtree *)

Lemma doc_exec_remove_node_one d tree st :
  doc (exec (remove_node tree [st]) (mkParser d None None None None None))
  = stripped d tree [st].
Proof. unfold exec. rewrite remove_node_one. reflexivity. Qed.

Lemma stripped_same_outside d tree st :
  same_outside tree d (stripped d tree [st]).
Proof.
  rewrite <- doc_exec_remove_node_one. rewrite exec_remove_node.
  apply (for_remove_item_same_outside tree _
           (mkParser d None None None None None)).
  intros a Ha. apply (findall_under d tree [st]); [discriminate | exact Ha].
Qed.

Lemma stripped_shrinks d tree st : shrinks d (stripped d tree [st]).
Proof.
  rewrite <- doc_exec_remove_node_one. rewrite exec_remove_node.
  apply (for_remove_item_shrinks _ (mkParser d None None None None None)).
Qed.

Lemma stripped_unlinked d tree st r :
  is_unlinked (stripped d tree [st]) r = true
  <-> In r (findall d tree [st]) \/ is_unlinked d r = true.
Proof.
  unfold stripped. apply remove_items_unlinked.
  intros H. apply (findall_linked d tree [st]) in H; [tauto | discriminate].
Qed.

(** The path to [section] finds it again after the subtree at [section]
    was stripped. *)
Lemma find_section_stripped d r a b section st :
  find d r [Descendant a; Child b] = Some section ->
  find (stripped d section [st]) r [Descendant a; Child b] = Some section.
Proof.
  set (d' := stripped d section [st]). intros H.
  pose proof (stripped_shrinks d section st) as Hs. fold d' in Hs.
  pose proof (stripped_same_outside d section st) as Ho. fold d' in Ho.
  assert (Hin : In section (findall d r [Descendant a; Child b])).
  { unfold find in H. destruct (findall d r [Descendant a; Child b]);
      [discriminate|]. injection H as ->. left. reflexivity. }
  unfold find, findall in *. simpl in *. rewrite app_nil_r in *.
  rewrite (iterdescendants_shrinks_filter d d' a r Hs).
  erewrite flat_map_ext;
    [|intros m; apply (iterchildren_shrinks_filter d d' b m Hs)].
  assert (Hsec : is_unlinked d' section = is_unlinked d section).
  { apply (Ho section). apply not_under_suffix, at_or_under_refl. }
  apply hd_flat_map_filter; [exact H| |].
  - intros m Hm Hc. apply among_In, in_descendants.
    unfold iterdescendants in Hm. apply filter_In in Hm. destruct Hm as [Hm _].
    apply in_descendants in Hm.
    unfold iterchildren in Hc. apply filter_In in Hc. destruct Hc as [Hc _].
    apply in_getchildren in Hc. destruct Hc as (i & E & _).
    apply (beneath_kept d d' r m); [apply Hs| |exact Hm].
    intros x (pre & Ex). apply (Ho x). apply not_under_suffix.
    exists (i :: pre). rewrite E, Ex. reflexivity.
  - rewrite Hsec. apply in_flat_map in Hin. destruct Hin as (m & _ & Hc).
    unfold iterchildren in Hc. apply filter_In in Hc. destruct Hc as [Hc _].
    apply in_getchildren in Hc. destruct Hc as (i & _ & _ & ->). reflexivity.
Qed.

(** ** Citations *)

Lemma get_preamble_citations_run s r :
  root s = Some r ->
  get_preamble_citations s =
  match find (doc s) r [Descendant (akn "preamble"); Child (akn "citations")]
  with
  | None => (s, Return None)
  | Some section =>
      let d' := stripped (doc s) section [Descendant (akn "authorialNote")] in
      (set_doc s d',
       Return (Some (map (citation_of d')
                         (findall d' section [Child (akn "citation")]))))
  end.
Proof.
  intros Hr. unfold get_preamble_citations.
  unfold bind at 1. unfold self_root. rewrite Hr.
  unfold bind at 1. cbv [find_ read].
  destruct (find (doc s) r [Descendant (akn "preamble");
                           Child (akn "citations")]) as [sec|];
    [|reflexivity].
  unfold bind at 1. rewrite remove_node_one.
  unfold bind at 1. unfold findall_, read. rewrite set_doc_doc.
  unfold bind at 1.
  rewrite reads_foldM with
    (g := fun acc c d => acc ++ [citation_of d c]).
  - rewrite set_doc_doc, fold_left_snoc, flat_map_single. reflexivity.
  - intros acc c s0. unfold bind. rewrite (reads_full_text c s0). reflexivity.
Qed.

(** ** Recitals *)

Lemma get_stripped d tree node e key :
  get (stripped d tree node) e key = get d e key.
Proof.
  unfold get, stripped. rewrite remove_items_parsed. reflexivity.
Qed.

Lemma findall_tag d tree p st e :
  In e (findall d tree (p ++ [st])) -> tag d e = step_tag st.
Proof.
  rewrite findall_app. simpl. intros H.
  apply (select_tag d st (findall d tree p) e H).
Qed.

(** A child that is not taken out is found again. *)
Lemma find_child_stripped d section b st x :
  find d section [Child b] = Some x ->
  ~ In x (findall d section [st]) ->
  find (stripped d section [st]) section [Child b] = Some x.
Proof.
  intros H Hn. unfold find, findall in *. simpl in *.
  rewrite app_nil_r in *.
  rewrite (iterchildren_shrinks_filter d _ b section
             (stripped_shrinks d section st)).
  apply hd_filter; [exact H|].
  destruct (is_unlinked (stripped d section [st]) x) eqn:E; [|reflexivity].
  apply stripped_unlinked in E. destruct E as [E | E]; [contradiction|].
  destruct (iterchildren d b section) as [|y l] eqn:Ei; [discriminate|].
  injection H as ->.
  assert (Hx : In x (iterchildren d b section)) by (rewrite Ei; left; auto).
  unfold iterchildren in Hx. apply filter_In in Hx. destruct Hx as [Hx _].
  apply in_getchildren in Hx. destruct Hx as (i & _ & _ & Hl).
  congruence.
Qed.

Lemma get_preamble_recitals_run s r :
  root s = Some r ->
  get_preamble_recitals s =
  match find (doc s) r [Descendant (akn "preamble"); Child (akn "recitals")]
  with
  | None => (s, Return None)
  | Some section =>
      match find (doc s) section [Child (akn "intro")] with
      | None => (s, Raise AttributeError)
      | Some intro =>
          let d' := stripped (doc s) section
                      [Descendant (akn "authorialNote")] in
          (set_doc s d',
           Return (Some (mkRecital (direct_text_of (doc s) intro)
                                   (get (doc s) intro "eId")
                         :: map (recital_of d')
                              (findall d' section [Child (akn "recital")]))))
      end
  end.
Proof.
  intros Hr. unfold get_preamble_recitals.
  unfold bind at 1. unfold self_root. rewrite Hr.
  unfold bind at 1. cbv [find_ read].
  destruct (find (doc s) r [Descendant (akn "preamble");
                           Child (akn "recitals")]) as [section|];
    [|reflexivity].
  unfold bind at 1.
  destruct (find (doc s) section [Child (akn "intro")]) as [intro|];
    [|reflexivity].
  unfold bind at 1. unfold deref, ret.
  unfold bind at 1. unfold get_, read.
  unfold bind at 1. rewrite (direct_paragraph_text_reads intro s).
  unfold bind at 1. rewrite remove_node_one.
  unfold bind at 1. unfold findall_, read. rewrite set_doc_doc.
  unfold bind at 1.
  pose proof (reads_foldM
    (fun recitals_text recital =>
       e <- get_ recital "eId" ;;
       let eId := str_of e in
       recital_text <- recital_text_of recital ;;
       ret (recitals_text ++ [mkRecital recital_text (Some eId)]))
    (fun acc rc d => acc ++ [recital_of d rc])
    (findall (stripped (doc s) section [Descendant (akn "authorialNote")])
             section [Child (akn "recital")])) as H.
  rewrite H.
  - rewrite set_doc_doc, fold_left_snoc, flat_map_single. reflexivity.
  - intros acc rc s0. unfold bind, get_, read.
    rewrite (recital_text_of_reads rc s0). reflexivity.
Qed.

Lemma akn_intro_not_note : akn "intro" <> akn "authorialNote".
Proof. discriminate. Qed.

Lemma get_preamble_recitals_second s r section intro :
  root s = Some r ->
  find (doc s) r [Descendant (akn "preamble"); Child (akn "recitals")]
  = Some section ->
  find (doc s) section [Child (akn "intro")] = Some intro ->
  let d' := stripped (doc s) section [Descendant (akn "authorialNote")] in
  get_preamble_recitals (set_doc s d') =
  (set_doc s d',
   Return (Some (mkRecital (direct_text_of d' intro) (get (doc s) intro "eId")
                 :: map (recital_of d')
                      (findall d' section [Child (akn "recital")])))).
Proof.
  intros Hr Hs Hi d'.
  rewrite (get_preamble_recitals_run (set_doc s d') r) by exact Hr.
  rewrite set_doc_doc. unfold d'.
  rewrite (find_section_stripped _ _ _ _ _ _ Hs).
  rewrite (find_child_stripped _ _ _ _ _ Hi).
  - cbv zeta. rewrite stripped_stripped, set_doc_set_doc, get_stripped.
    reflexivity.
  - intros H.
    apply (findall_tag (doc s) section [] (Descendant (akn "authorialNote")))
      in H.
    assert (Ht : tag (doc s) intro = akn "intro").
    { apply (findall_tag (doc s) section [] (Child (akn "intro"))).
      cbn [app]. unfold find in Hi.
      destruct (findall (doc s) section [Child (akn "intro")]) as [|y l];
        [discriminate|]. simpl in Hi. injection Hi as ->. left. reflexivity. }
    rewrite Ht in H. exact (akn_intro_not_note H).
Qed.

(** ** Locators and articles *)

Lemma located_None d r local :
  located d r local = None
  <-> forall e, beneath d r e -> tag d e <> akn local /\ tag d e <> local.
Proof.
  pose proof (located_spec d r local) as H. split.
  - intros E. rewrite E in H. exact H.
  - intros Hn. destruct (located d r local) as [e|]; [|reflexivity].
    destruct H as (Hb & [Ht | [Ht _]] & _);
      destruct (Hn e Hb) as [N1 N2]; contradiction.
Qed.

(* ================================================================== *)
(** * Further properties of the code *)
(* ================================================================== *)

(** ** Stripping *)

(** X1.  With a selector of one step [remove_node] returns the subtree it
    was given and unlinks exactly the elements the selector matches
    beneath it: an element is unlinked afterwards if and only if it was
    matched or was unlinked before.  The parsed tree and the fields of
    the parser are as before. *)
Theorem remove_node_unlinks_the_matches tree st s :
  let s' := exec (remove_node tree [st]) s in
  eval (remove_node tree [st]) s = Return tree
  /\ same_fields s s'
  /\ parsed (doc s') = parsed (doc s)
  /\ forall r, is_unlinked (doc s') r = true
               <-> In r (findall (doc s) tree [st])
                   \/ is_unlinked (doc s) r = true.
Proof.
  unfold exec, eval. rewrite remove_node_one. simpl fst. simpl snd.
  rewrite set_doc_doc.
  split; [reflexivity|]. split; [apply same_fields_set_doc|].
  split; [apply remove_items_parsed|]. intros r. apply stripped_unlinked.
Qed.

(** X2.  Whatever the selector and whether or not it raises,
    [remove_node] loses no text: the text and the tail of every element
    afterwards begin with what they were before (a tail of a removed
    element is appended somewhere, nothing is cut or overwritten).  It
    links no element again, and leaves the parsed tree and the fields of
    the parser alone. *)
Theorem remove_node_only_appends tree node s :
  let s' := exec (remove_node tree node) s in
  extends (doc s) (doc s') /\ shrinks (doc s) (doc s') /\ same_fields s s'.
Proof.
  cbv zeta. rewrite exec_remove_node. split.
  - apply for_remove_item_extends.
  - apply for_remove_item_shrinks.
Qed.

(** X3.  With a selector that is not empty, [remove_node] changes nothing
    outside the subtree it was given: an element that is not strictly
    beneath [tree] keeps its tail and stays linked or unlinked as it
    was, and an element that is neither [tree] nor beneath it keeps its
    text. *)
Theorem remove_node_changes_nothing_outside tree node s :
  node <> [] ->
  same_outside tree (doc s) (doc (exec (remove_node tree node) s)).
Proof.
  intros Hn. rewrite exec_remove_node.
  apply for_remove_item_same_outside.
  intros a Ha. eapply findall_under; eauto.
Qed.

Lemma remove_node_changes_nothing_outside_witness :
  note <> []
  /\ same_outside [1; 0; 0; 0] (doc (loaded doc_chapter))
       (doc (exec (remove_node [1; 0; 0; 0] note) (loaded doc_chapter))).
Proof.
  assert (H : note <> []) by discriminate.
  split; [exact H|].
  exact (remove_node_changes_nothing_outside [1; 0; 0; 0] note
           (loaded doc_chapter) H).
Defined.

(** X4.  When the tag of the selector's last step occurs nowhere in the
    document, [remove_node] returns the subtree and changes nothing at
    all. *)
Theorem remove_node_without_match tree p st s :
  mentions (step_tag st) (parsed (doc s)) = false ->
  remove_node tree (p ++ [st]) s = (s, Return tree).
Proof.
  intros H. rewrite remove_node_unfold, (findall_absent _ _ _ _ H).
  reflexivity.
Qed.

Lemma remove_node_without_match_witness :
  mentions (step_tag (Descendant (akn "authorialNote")))
    (parsed (doc (loaded doc_paragraphs))) = false
  /\ remove_node [] note (loaded doc_paragraphs)
     = (loaded doc_paragraphs, Return []).
Proof.
  assert (H : mentions (step_tag (Descendant (akn "authorialNote")))
                (parsed (doc (loaded doc_paragraphs))) = false)
    by reflexivity.
  split; [exact H|].
  exact (remove_node_without_match [] []
           (Descendant (akn "authorialNote")) (loaded doc_paragraphs) H).
Defined.

(** ** Paragraph grouping *)

(** X5.  [get_text_by_eId] does not raise and changes nothing.  No entry
    it returns has an empty identifier, and it returns at most one entry
    per paragraph beneath the node. *)
Theorem get_text_by_eId_entries node s :
  exists l,
    get_text_by_eId node s = (s, Return l)
    /\ Forall (fun e => element_eId e <> []) l
    /\ List.length l <= List.length (paragraphs (doc s) node).
Proof.
  exists (text_by_eId (doc s) node). split.
  - apply get_text_by_eId_reads.
  - split; [apply text_by_eId_ids | apply text_by_eId_length].
Qed.

(** X6.  Beneath a node that itself carries a non-empty [eId] no
    paragraph is dropped: [get_text_by_eId] returns one entry per
    paragraph, in document order, with the paragraph's trimmed full
    text. *)
Theorem get_text_by_eId_under_identified node s :
  identified (doc s) node = true ->
  exists l,
    get_text_by_eId node s = (s, Return l)
    /\ map element_text l
       = map (full_text_of (doc s)) (paragraphs (doc s) node).
Proof.
  intros H. exists (text_by_eId (doc s) node). split.
  - apply get_text_by_eId_reads.
  - apply text_by_eId_all, H.
Qed.

Lemma get_text_by_eId_under_identified_witness :
  identified (doc (loaded doc_paragraphs)) [1] = true
  /\ exists l,
       get_text_by_eId [1] (loaded doc_paragraphs)
       = (loaded doc_paragraphs, Return l)
       /\ map element_text l
          = map (full_text_of (doc (loaded doc_paragraphs)))
              (paragraphs (doc (loaded doc_paragraphs)) [1]).
Proof.
  assert (H : identified (doc (loaded doc_paragraphs)) [1] = true)
    by reflexivity.
  split; [exact H|].
  exact (get_text_by_eId_under_identified [1] (loaded doc_paragraphs) H).
Defined.

(** ** Preface and preamble *)

(** X7.  After [get_root], [get_preface] does not raise and changes
    nothing.  It returns [None] without a [preface] element, and
    otherwise one string per direct [p] child of the first [preface], in
    order: the child's full descendant text, which neither begins nor
    ends with white space. *)
Theorem get_preface_spec s r :
  root s = Some r ->
  get_preface s =
  (s, Return (option_map
                (fun preface =>
                   map (full_text_of (doc s))
                     (findall (doc s) preface [Child (akn "p")]))
                (find (doc s) r [Descendant (akn "preface")])))
  /\ forall e, trimmed (full_text_of (doc s) e).
Proof.
  intros Hr. split.
  - rewrite (get_preface_run s r Hr).
    destruct (find (doc s) r [Descendant (akn "preface")]); reflexivity.
  - intros e. apply strip_trimmed.
Qed.

Lemma get_preface_spec_witness :
  root (loaded doc_front) = Some []
  /\ get_preface (loaded doc_front)
     = (loaded doc_front, Return (Some [lit "Regulation"; lit "of 2024"])).
Proof.
  assert (H : root (loaded doc_front) = Some []) by reflexivity.
  split; [exact H|].
  destruct (get_preface_spec (loaded doc_front) [] H) as [E _].
  rewrite E. reflexivity.
Defined.

(** X8.  After [get_root], [get_preamble_formula] does not raise and
    changes nothing.  It returns [None] without a [formula] child of a
    [preamble], and otherwise the trimmed direct texts of the formula's
    [p] children that have direct text, joined by single spaces; text
    inside inline markup of a paragraph is not part of it. *)
Theorem get_preamble_formula_spec s r :
  root s = Some r ->
  get_preamble_formula s =
  (s, Return (option_map (direct_text_of (doc s))
                (find (doc s) r [Descendant (akn "preamble");
                                 Child (akn "formula")]))).
Proof. apply get_preamble_formula_run. Qed.

Lemma get_preamble_formula_spec_witness :
  root (loaded doc_front) = Some []
  /\ get_preamble_formula (loaded doc_front)
     = (loaded doc_front, Return (Some (lit "THE COUNCIL,"))).
Proof.
  assert (H : root (loaded doc_front) = Some []) by reflexivity.
  split; [exact H|].
  rewrite (get_preamble_formula_spec (loaded doc_front) [] H). reflexivity.
Defined.

(** X9.  With a [citations] section, [get_preamble_citations] strips the
    [authorialNote] elements beneath the section and returns one entry
    per [citation] child of the stripped section: its full descendant
    text, which neither begins nor ends with white space.  No
    [authorialNote] is left beneath the section. *)
Theorem get_preamble_citations_spec s r section :
  root s = Some r ->
  find (doc s) r [Descendant (akn "preamble"); Child (akn "citations")]
  = Some section ->
  let d' := stripped (doc s) section note in
  get_preamble_citations s =
  (set_doc s d',
   Return (Some (map (citation_of d')
                   (findall d' section [Child (akn "citation")]))))
  /\ findall d' section note = []
  /\ forall c, trimmed (citation_text (citation_of d' c)).
Proof.
  intros Hr Hs d'. split; [|split].
  - rewrite (get_preamble_citations_run s r Hr), Hs. reflexivity.
  - apply findall_stripped.
  - intros c. apply strip_trimmed.
Qed.

Lemma get_preamble_citations_spec_witness :
  root (loaded doc_front) = Some []
  /\ find (doc (loaded doc_front)) []
       [Descendant (akn "preamble"); Child (akn "citations")] = Some [1; 1]
  /\ eval get_preamble_citations (loaded doc_front)
     = Return (Some [mkCitation (lit "Having regard to the Treaty,")]).
Proof.
  assert (H1 : root (loaded doc_front) = Some []) by reflexivity.
  assert (H2 : find (doc (loaded doc_front)) []
                 [Descendant (akn "preamble"); Child (akn "citations")]
               = Some [1; 1]) by reflexivity.
  split; [exact H1|]. split; [exact H2|].
  destruct (get_preamble_citations_spec (loaded doc_front) [] [1; 1] H1 H2)
    as [E _].
  unfold eval. rewrite E. reflexivity.
Defined.

(** X10.  [get_preamble_citations] called a second time returns what the
    first call returned and changes nothing more: the section is found
    again and there is nothing left to strip. *)
Theorem get_preamble_citations_again s r :
  root s = Some r ->
  get_preamble_citations (exec get_preamble_citations s)
  = (exec get_preamble_citations s, eval get_preamble_citations s).
Proof.
  intros Hr. unfold exec, eval. rewrite (get_preamble_citations_run s r Hr).
  destruct (find (doc s) r [Descendant (akn "preamble");
                           Child (akn "citations")]) as [sec|] eqn:E.
  - cbv zeta. simpl fst. simpl snd.
    rewrite (get_preamble_citations_run _ r) by exact Hr.
    rewrite set_doc_doc.
    rewrite (find_section_stripped _ _ _ _ _ _ E).
    cbv zeta. rewrite stripped_stripped, set_doc_set_doc. reflexivity.
  - simpl. rewrite (get_preamble_citations_run s r Hr), E. reflexivity.
Qed.

Lemma get_preamble_citations_again_witness :
  root (loaded doc_front) = Some []
  /\ get_preamble_citations (exec get_preamble_citations (loaded doc_front))
     = (exec get_preamble_citations (loaded doc_front),
        eval get_preamble_citations (loaded doc_front)).
Proof.
  assert (H : root (loaded doc_front) = Some []) by reflexivity.
  split; [exact H|].
  exact (get_preamble_citations_again (loaded doc_front) [] H).
Defined.

(** X11.  [get_preamble_recitals] called a second time changes nothing
    more and returns the recital entries of the first call.  Only the
    text of the intro entry is read again, now from the stripped
    section, so it differs from the first call's when the intro carried
    a note. *)
Theorem get_preamble_recitals_again s r section intro :
  root s = Some r ->
  find (doc s) r [Descendant (akn "preamble"); Child (akn "recitals")]
  = Some section ->
  find (doc s) section [Child (akn "intro")] = Some intro ->
  let s' := exec get_preamble_recitals s in
  exists first rest,
    eval get_preamble_recitals s = Return (Some (first :: rest))
    /\ first = mkRecital (direct_text_of (doc s) intro)
                 (get (doc s) intro "eId")
    /\ get_preamble_recitals s' =
       (s', Return (Some (mkRecital (direct_text_of (doc s') intro)
                                    (recital_eId first) :: rest))).
Proof.
  intros Hr Hs Hi s'.
  pose proof (get_preamble_recitals_run s r Hr) as E.
  rewrite Hs, Hi in E. cbv zeta in E.
  unfold s', exec, eval. rewrite E. simpl fst. simpl snd.
  eexists. eexists. split; [reflexivity|]. split; [reflexivity|].
  rewrite (get_preamble_recitals_second s r section intro Hr Hs Hi).
  rewrite set_doc_doc. reflexivity.
Qed.

Lemma get_preamble_recitals_again_witness :
  root (loaded doc_recitals) = Some []
  /\ find (doc (loaded doc_recitals)) []
       [Descendant (akn "preamble"); Child (akn "recitals")] = Some [0; 0]
  /\ find (doc (loaded doc_recitals)) [0; 0] [Child (akn "intro")]
     = Some [0; 0; 0]
  /\ exists first rest,
       eval get_preamble_recitals (loaded doc_recitals)
       = Return (Some (first :: rest))
       /\ first = mkRecital
                    (direct_text_of (doc (loaded doc_recitals)) [0; 0; 0])
                    (get (doc (loaded doc_recitals)) [0; 0; 0] "eId")
       /\ get_preamble_recitals
            (exec get_preamble_recitals (loaded doc_recitals))
          = (exec get_preamble_recitals (loaded doc_recitals),
             Return (Some (mkRecital
                             (direct_text_of
                                (doc (exec get_preamble_recitals
                                        (loaded doc_recitals))) [0; 0; 0])
                             (recital_eId first) :: rest))).
Proof.
  assert (H1 : root (loaded doc_recitals) = Some []) by reflexivity.
  assert (H2 : find (doc (loaded doc_recitals)) []
                 [Descendant (akn "preamble"); Child (akn "recitals")]
               = Some [0; 0]) by reflexivity.
  assert (H3 : find (doc (loaded doc_recitals)) [0; 0] [Child (akn "intro")]
               = Some [0; 0; 0]) by reflexivity.
  split; [exact H1|]. split; [exact H2|]. split; [exact H3|].
  exact (get_preamble_recitals_again (loaded doc_recitals) [] [0; 0]
           [0; 0; 0] H1 H2 H3).
Defined.

(** X12.  The list [get_preamble_recitals] returns is never empty, and
    every entry after the first (the intro) carries an identifier that
    is a string and not null: the [eId] of a recital goes through
    [str], so a recital without one gets the text [None].  The intro's
    identifier is not converted. *)
Theorem recital_identifiers_are_strings s r l :
  root s = Some r ->
  eval get_preamble_recitals s = Return (Some l) ->
  exists first rest,
    l = first :: rest
    /\ Forall (fun e => exists i, recital_eId e = Some i) rest.
Proof.
  intros Hr. unfold eval. rewrite (get_preamble_recitals_run s r Hr).
  destruct (find (doc s) r [Descendant (akn "preamble");
                           Child (akn "recitals")]) as [section|];
    [|discriminate].
  destruct (find (doc s) section [Child (akn "intro")]) as [intro|];
    [|discriminate].
  cbv zeta. simpl snd. intros [= <-].
  eexists. eexists. split; [reflexivity|].
  apply Forall_forall. intros e He. apply in_map_iff in He.
  destruct He as (rc & <- & _). eexists. reflexivity.
Qed.

Lemma recital_identifiers_are_strings_witness :
  root (loaded doc_recitals) = Some []
  /\ eval get_preamble_recitals (loaded doc_recitals)
     = Return (Some [mkRecital (lit "Whereas:") (Some (lit "rec_intro"));
                     mkRecital (lit "foo bar") (Some (lit "rec_1"))])
  /\ exists first rest,
       [mkRecital (lit "Whereas:") (Some (lit "rec_intro"));
        mkRecital (lit "foo bar") (Some (lit "rec_1"))] = first :: rest
       /\ Forall (fun e => exists i, recital_eId e = Some i) rest.
Proof.
  assert (H1 : root (loaded doc_recitals) = Some []) by reflexivity.
  assert (H2 : eval get_preamble_recitals (loaded doc_recitals)
               = Return (Some [mkRecital (lit "Whereas:")
                                 (Some (lit "rec_intro"));
                               mkRecital (lit "foo bar")
                                 (Some (lit "rec_1"))])) by reflexivity.
  split; [exact H1|]. split; [exact H2|].
  exact (recital_identifiers_are_strings (loaded doc_recitals) [] _ H1 H2).
Defined.

(** X13.  [get_preamble] fails only where [get_preamble_recitals] does.
    The formula is read and the citations are extracted first, neither
    of which raises; the recitals are extracted from the parser the
    citations left, and the parser they leave is the one [get_preamble]
    leaves, also when they raise. *)
Theorem get_preamble_composition s r :
  root s = Some r ->
  let s1 := exec get_preamble_citations s in
  exists c,
    eval get_preamble_citations s = Return c
    /\ get_preamble s =
       (exec get_preamble_recitals s1,
        match eval get_preamble_recitals s1 with
        | Return rc =>
            Return (mkPreamble
                      (option_map (direct_text_of (doc s))
                         (find (doc s) r [Descendant (akn "preamble");
                                          Child (akn "formula")]))
                      c rc)
        | Raise e => Raise e
        end).
Proof.
  intros Hr s1. unfold get_preamble.
  unfold bind at 1. rewrite (get_preamble_formula_run s r Hr).
  unfold bind at 1. unfold s1, exec, eval.
  pose proof (get_preamble_citations_run s r Hr) as E.
  destruct (get_preamble_citations s) as [s2 o].
  assert (Ho : exists c, o = Return c).
  { destruct (find (doc s) r [Descendant (akn "preamble");
                             Child (akn "citations")]);
      injection E as _ ->; eexists; reflexivity. }
  destruct Ho as (c & ->). exists c. split; [reflexivity|].
  simpl fst. unfold bind.
  destruct (get_preamble_recitals s2) as [s3 [rc|e]]; reflexivity.
Qed.

Lemma get_preamble_composition_witness :
  root (loaded doc_recitals_without_intro) = Some []
  /\ get_preamble (loaded doc_recitals_without_intro)
     = (loaded doc_recitals_without_intro, Raise AttributeError).
Proof.
  assert (H : root (loaded doc_recitals_without_intro) = Some [])
    by reflexivity.
  split; [exact H|].
  destruct (get_preamble_composition (loaded doc_recitals_without_intro) [] H)
    as (c & _ & E).
  rewrite E. reflexivity.
Defined.

(** X14.  On a document without a [preamble] element [get_preamble]
    returns the record whose three parts are all [None], and changes
    nothing. *)
Theorem get_preamble_without_preamble s r :
  root s = Some r ->
  mentions (akn "preamble") (parsed (doc s)) = false ->
  get_preamble s = (s, Return (mkPreamble None None None)).
Proof.
  intros Hr H.
  pose proof (fun p => find_absent_first (doc s) r
                         (Descendant (akn "preamble")) p H) as E.
  unfold get_preamble.
  unfold bind at 1. rewrite (get_preamble_formula_run s r Hr), E.
  unfold bind at 1. rewrite (get_preamble_citations_run s r Hr), E.
  unfold bind at 1. rewrite (get_preamble_recitals_run s r Hr), E.
  reflexivity.
Qed.

Lemma get_preamble_without_preamble_witness :
  root (loaded doc_chapter) = Some []
  /\ mentions (akn "preamble") (parsed (doc (loaded doc_chapter))) = false
  /\ get_preamble (loaded doc_chapter)
     = (loaded doc_chapter, Return (mkPreamble None None None)).
Proof.
  assert (H1 : root (loaded doc_chapter) = Some []) by reflexivity.
  assert (H2 : mentions (akn "preamble") (parsed (doc (loaded doc_chapter)))
               = false) by reflexivity.
  split; [exact H1|]. split; [exact H2|].
  exact (get_preamble_without_preamble (loaded doc_chapter) [] H1 H2).
Defined.

(** ** Metadata *)
(** X15.  After [get_root], [get_meta_identification] changes nothing.
    It returns [None] without an [identification] child of a [meta];
    otherwise each of its three blocks is [None] when the block's
    element is missing, and the call raises [AttributeError] as soon as
    one block that is there lacks one of the children read from it,
    however complete the other blocks are. *)
Theorem get_meta_identification_spec s r :
  root s = Some r ->
  get_meta_identification s =
  (s, match find (doc s) r [Descendant (akn "meta");
                            Child (akn "identification")] with
      | None => Return None
      | Some i =>
          match frbr_block (doc s) i (akn "FRBRWork") work_children work_of,
                frbr_block (doc s) i (akn "FRBRExpression")
                  expression_children expression_of,
                frbr_block (doc s) i (akn "FRBRManifestation")
                  manifestation_children manifestation_of
          with
          | Return w, Return e, Return m => Return (Some (mkFrbr w e m))
          | _, _, _ => Raise AttributeError
          end
      end).
Proof.
  intros Hr. unfold get_meta_identification.
  unfold bind at 1. unfold self_root. rewrite Hr.
  unfold bind at 1. cbv [find_ read].
  destruct (find (doc s) r [Descendant (akn "meta");
                           Child (akn "identification")]) as [i|];
    [|reflexivity].
  unfold bind. rewrite _get_frbr_work_run.
  destruct (frbr_block (doc s) i (akn "FRBRWork") work_children work_of)
    as [w|ew] eqn:Ew.
  - rewrite _get_frbr_expression_run.
    destruct (frbr_block (doc s) i (akn "FRBRExpression") expression_children
                expression_of) as [e|ee] eqn:Ee.
    + rewrite _get_frbr_manifestation_run.
      destruct (frbr_block (doc s) i (akn "FRBRManifestation")
                  manifestation_children manifestation_of) as [m|em] eqn:Em.
      * reflexivity.
      * apply frbr_block_raises in Em. subst em. reflexivity.
    + apply frbr_block_raises in Ee. subst ee. reflexivity.
  - apply frbr_block_raises in Ew. subst ew. reflexivity.
Qed.

Lemma get_meta_identification_spec_witness :
  root (loaded doc_meta) = Some []
  /\ exists w,
       get_meta_identification (loaded doc_meta)
       = (loaded doc_meta, Return (Some (mkFrbr (Some w) None None))).
Proof.
  assert (H : root (loaded doc_meta) = Some []) by reflexivity.
  split; [exact H|].
  rewrite (get_meta_identification_spec (loaded doc_meta) [] H).
  eexists. reflexivity.
Defined.

(** X16.  After [get_root], [get_meta_references] never raises and
    changes nothing: it returns [None] without a [TLCOrganization], and
    otherwise the three attributes of the first one, each [None] when
    the attribute is missing. *)
Theorem get_meta_references_spec s r :
  root s = Some r ->
  get_meta_references s =
  (s, Return (option_map
                (fun org => mkReferences (get (doc s) org "eId")
                              (get (doc s) org "href")
                              (get (doc s) org "showAs"))
                (find (doc s) r [Descendant (akn "meta");
                                 Child (akn "references");
                                 Child (akn "TLCOrganization")]))).
Proof.
  intros Hr. unfold get_meta_references.
  cbv [bind self_root find_ read get_ ret]. rewrite Hr.
  destruct (find (doc s) r [Descendant (akn "meta");
                           Child (akn "references");
                           Child (akn "TLCOrganization")]); reflexivity.
Qed.

Lemma get_meta_references_spec_witness :
  root (loaded doc_meta) = Some []
  /\ get_meta_references (loaded doc_meta) = (loaded doc_meta, Return None).
Proof.
  assert (H : root (loaded doc_meta) = Some []) by reflexivity.
  split; [exact H|].
  rewrite (get_meta_references_spec (loaded doc_meta) [] H). reflexivity.
Defined.

(** ** Locators *)

(** X17.  After [get_root], [get_act] and [get_body] never raise and
    assign only their own field.  The element stored is the first one
    in document order beneath the root with the namespaced tag; only
    when there is none, the first with the tag without namespace; and
    [None] exactly when the document has neither beneath the root (the
    root itself is not looked at). *)
Theorem locators_spec s r :
  root s = Some r ->
  get_act s = (with_act s (located (doc s) r "act"), Return tt)
  /\ get_body s = (with_body s (located (doc s) r "body"), Return tt)
  /\ forall local,
       match located (doc s) r local with
       | Some e =>
           beneath (doc s) r e
           /\ (tag (doc s) e = akn local
               \/ (tag (doc s) e = local
                   /\ forall e', beneath (doc s) r e' ->
                                 tag (doc s) e' <> akn local))
           /\ (forall e', beneath (doc s) r e' ->
                          tag (doc s) e' = tag (doc s) e ->
                          e' = e \/ before e e')
       | None =>
           forall e', beneath (doc s) r e' ->
                      tag (doc s) e' <> akn local /\ tag (doc s) e' <> local
       end.
Proof.
  intros Hr. split; [apply get_act_run, Hr|].
  split; [apply get_body_located, Hr|].
  intros local. apply located_spec.
Qed.

Lemma locators_spec_witness :
  root (loaded doc_plain_body) = Some []
  /\ get_act (loaded doc_plain_body)
     = (with_act (loaded doc_plain_body) (Some [0]), Return tt)
  /\ get_body (loaded doc_plain_body)
     = (with_body (loaded doc_plain_body) (Some [0; 0]), Return tt).
Proof.
  assert (H : root (loaded doc_plain_body) = Some []) by reflexivity.
  split; [exact H|].
  destruct (locators_spec (loaded doc_plain_body) [] H) as (A & B & _).
  split; [rewrite A | rewrite B]; reflexivity.
Defined.

(** X18.  [parse] raises what opening or reading the file raises, and
    has then assigned nothing.  On a new parser and a file that is read,
    [get_root] assigns the root only, and [parse] does not raise and
    assigns the root and the body and nothing else: act, chapters and
    articles stay unset.  [get_articles] right after it raises
    [AttributeError] exactly when no element beneath the root is tagged
    [body], with or without the namespace; otherwise it returns the
    articles of the located body. *)
Theorem parse_then_get_articles :
  (forall e s, get_root (Raise e) s = (s, Raise e)
               /\ parse (Raise e) s = (s, Raise e))
  /\ forall tree d,
       let s := exec (parse (Return tree)) (unloaded d) in
       let b := located (etree.parse tree) [] "body" in
       get_root (Return tree) (unloaded d) = (loaded tree, Return [])
       /\ parse (Return tree) (unloaded d)
          = (with_body (loaded tree) b, Return tt)
       /\ act s = None /\ chapters s = None /\ articles s = None
       /\ get_articles s =
          match b with
          | Some e =>
              (after_get_articles s e,
               Return (map (article_of (doc (after_get_articles s e)))
                         (findall (doc (after_get_articles s e)) e
                            [Descendant (akn "article")])))
          | None => (with_articles s [], Raise AttributeError)
          end
       /\ (b = None
           <-> forall e, beneath (etree.parse tree) [] e ->
                         tag (etree.parse tree) e <> akn "body"
                         /\ tag (etree.parse tree) e <> "body"%string).
Proof.
  split; [intros e s; split; reflexivity|].
  intros tree d. cbv zeta.
  assert (E : parse (Return tree) (unloaded d)
              = (with_body (loaded tree)
                   (located (etree.parse tree) [] "body"),
                 Return tt)).
  { unfold parse, bind. cbn [get_root unloaded act body chapters articles].
    apply (get_body_located (loaded tree) []). reflexivity. }
  unfold exec. rewrite E. simpl fst.
  split; [reflexivity|]. split; [reflexivity|]. split; [reflexivity|].
  split; [reflexivity|]. split; [reflexivity|]. split.
  - destruct (located (etree.parse tree) [] "body") as [e|].
    + apply get_articles_run. reflexivity.
    + apply get_articles_unlocated. right. reflexivity.
  - apply located_None.
Qed.

(** X19.  [get_articles] looks for namespaced [article] elements only:
    on a document that has none (as one written without namespaces, whose
    body [get_body] does find) it returns the empty list, after
    stripping the body. *)
Theorem get_articles_needs_namespace s b :
  body s = Some (Some b) ->
  mentions (akn "article") (parsed (doc s)) = false ->
  get_articles s
  = (with_articles (set_doc s (stripped (doc s) b note)) [], Return []).
Proof.
  intros Hb H. rewrite (get_articles_run s b Hb).
  assert (E : findall (doc (after_get_articles s b)) b
                [Descendant (akn "article")] = []).
  { apply (findall_absent _ b [] (Descendant (akn "article"))).
    unfold after_get_articles. simpl doc. unfold stripped.
    rewrite remove_items_parsed. exact H. }
  rewrite E. unfold after_get_articles. cbv zeta.
  assert (E' : findall (stripped (doc s) b [Descendant (akn "authorialNote")])
                 b [Descendant (akn "article")] = []).
  { apply (findall_absent _ b [] (Descendant (akn "article"))).
    unfold stripped. rewrite remove_items_parsed. exact H. }
  rewrite E'. unfold with_articles, set_doc. simpl. rewrite Hb. reflexivity.
Qed.

Lemma get_articles_needs_namespace_witness :
  body (exec get_body (loaded doc_plain_body)) = Some (Some [0; 0])
  /\ mentions (akn "article")
       (parsed (doc (exec get_body (loaded doc_plain_body)))) = false
  /\ eval get_articles (exec get_body (loaded doc_plain_body)) = Return [].
Proof.
  assert (H1 : body (exec get_body (loaded doc_plain_body))
               = Some (Some [0; 0])) by reflexivity.
  assert (H2 : mentions (akn "article")
                 (parsed (doc (exec get_body (loaded doc_plain_body)))) = false)
    by reflexivity.
  split; [exact H1|]. split; [exact H2|].
  unfold eval.
  rewrite (get_articles_needs_namespace _ _ H1 H2). reflexivity.
Defined.

(** ** Repeated extraction *)

(** X20.  [get_chapters] called again leaves the parser as the first
    call left it: the list is started afresh, so no chapter is recorded
    twice. *)
Theorem get_chapters_again s r :
  root s = Some r ->
  get_chapters (exec get_chapters s) = (exec get_chapters s, Return tt).
Proof.
  intros Hr. unfold exec. rewrite (get_chapters_run s r Hr). simpl fst.
  rewrite (get_chapters_run _ r) by exact Hr. reflexivity.
Qed.

Lemma get_chapters_again_witness :
  root (loaded doc_chapter) = Some []
  /\ get_chapters (exec get_chapters (loaded doc_chapter))
     = (exec get_chapters (loaded doc_chapter), Return tt).
Proof.
  assert (H : root (loaded doc_chapter) = Some []) by reflexivity.
  split; [exact H|].
  exact (get_chapters_again (loaded doc_chapter) [] H).
Defined.

(** X21.  After [get_articles] no [authorialNote] is linked beneath the
    body, and a second call returns the same articles and leaves the
    parser as the first call left it. *)
Theorem get_articles_again s b :
  body s = Some (Some b) ->
  let s' := exec get_articles s in
  findall (doc s') b note = []
  /\ get_articles s' = (s', eval get_articles s).
Proof.
  intros Hb s'. split.
  - unfold s', exec. rewrite (get_articles_run s b Hb). simpl.
    apply findall_stripped.
  - apply get_articles_twice with (b := b). exact Hb.
Qed.

Lemma get_articles_again_witness :
  body (exec get_body (loaded doc_chapter)) = Some (Some [0; 0])
  /\ findall (doc (exec get_articles (exec get_body (loaded doc_chapter))))
       [0; 0] note = []
  /\ get_articles (exec get_articles (exec get_body (loaded doc_chapter)))
     = (exec get_articles (exec get_body (loaded doc_chapter)),
        eval get_articles (exec get_body (loaded doc_chapter))).
Proof.
  assert (H : body (exec get_body (loaded doc_chapter)) = Some (Some [0; 0]))
    by reflexivity.
  split; [exact H|].
  exact (get_articles_again (exec get_body (loaded doc_chapter)) [0; 0] H).
Defined.

(** ** Before the document is loaded *)

(** X22.  Without a root (no [get_root] yet) every extraction raises
    [AttributeError].  All of them leave the parser as it was, except
    [get_chapters], which has emptied the chapter list before it fails. *)
Theorem before_get_root s :
  root s = None ->
  get_meta_identification s = (s, Raise AttributeError)
  /\ get_meta_references s = (s, Raise AttributeError)
  /\ get_meta_proprietary s = (s, Raise AttributeError)
  /\ get_preface s = (s, Raise AttributeError)
  /\ get_preamble_formula s = (s, Raise AttributeError)
  /\ get_preamble_citations s = (s, Raise AttributeError)
  /\ get_preamble_recitals s = (s, Raise AttributeError)
  /\ get_preamble s = (s, Raise AttributeError)
  /\ get_act s = (s, Raise AttributeError)
  /\ get_body s = (s, Raise AttributeError)
  /\ get_chapters s = (with_chapters s [], Raise AttributeError).
Proof.
  intros H.
  unfold get_meta_identification, get_meta_references, get_meta_proprietary,
    get_preface, get_preamble, get_preamble_formula, get_preamble_citations,
    get_preamble_recitals, get_act, get_body, get_chapters.
  cbv [bind self_root set_chapters]. simpl root. rewrite H.
  repeat split.
Qed.

Lemma before_get_root_witness :
  root (unloaded (etree.parse doc_chapter)) = None
  /\ get_body (unloaded (etree.parse doc_chapter))
     = (unloaded (etree.parse doc_chapter), Raise AttributeError)
  /\ get_chapters (unloaded (etree.parse doc_chapter))
     = (with_chapters (unloaded (etree.parse doc_chapter)) [],
        Raise AttributeError).
Proof.
  assert (H : root (unloaded (etree.parse doc_chapter)) = None)
    by reflexivity.
  split; [exact H|].
  destruct (before_get_root (unloaded (etree.parse doc_chapter)) H)
    as (_ & _ & _ & _ & _ & _ & _ & _ & _ & B & C).
  split; [exact B | exact C].
Defined.
